(** * The OpenAPI gateway of the wallet: route table, dispatch and typed operations

    A shallow embedding of [src/background/service/openapi.ts].  The service
    object ([this]) together with the persisted record behind [this.store],
    the requests handed to the HTTP client and the console form the state a
    small state-and-error monad threads through the methods.  The HTTP
    client (axios wrapped by axios-rate-limit) is an external collaborator:
    every request is recorded as a [Call] and its reply is supplied by the
    caller of the model. *)

From Stdlib Require Import ZArith String Ascii List Lia.
From stdpp Require Import base option list strings gmap fin_maps.

Set Warnings "-register-all".
Open Scope string_scope.
Open Scope Z_scope.

(* ===================================================================== *)
(** ** JavaScript strings and values *)
(* ===================================================================== *)

(** [String.prototype.toLowerCase] on the ASCII range (the alphabet of
    addresses and of HTTP verbs); other bytes are left as they are. *)
Definition is_upper (c : ascii) : bool :=
  (65 <=? nat_of_ascii c)%nat && (nat_of_ascii c <=? 90)%nat.

Definition lower_ascii (c : ascii) : ascii :=
  if is_upper c then ascii_of_nat (nat_of_ascii c + 32) else c.

Fixpoint toLowerCase (s : string) : string :=
  match s with
  | EmptyString => EmptyString
  | String c s' => String (lower_ascii c) (toLowerCase s')
  end.

(** No upper-case letter occurs in the string. *)
Fixpoint is_lower_cased (s : string) : bool :=
  match s with
  | EmptyString => true
  | String c s' => negb (is_upper c) && is_lower_cased s'
  end.

(** The two strings differ at most in the case of their letters. *)
Fixpoint same_ignoring_case (s t : string) : bool :=
  match s, t with
  | EmptyString, EmptyString => true
  | String c s', String d t' =>
      bool_decide (lower_ascii c = lower_ascii d) && same_ignoring_case s' t'
  | _, _ => false
  end.

(** Values of type [any]: call arguments, request objects, reply bodies. *)
Inductive JsVal : Type :=
| JUndefined
| JNull
| JBool (b : bool)
| JNum (n : Z)
| JStr (s : string)
| JArr (items : list JsVal)
| JObj (fields : gmap string JsVal).

(** An object literal [{k1: v1, k2: v2, ...}]. *)
Definition obj (fields : list (string * JsVal)) : JsVal :=
  JObj (list_to_map fields).

(** Object spread [{...base, ...over}]: the properties of [over] are
    assigned after those of [base] and win on a common name. *)
Definition spread (base over : gmap string JsVal) : gmap string JsVal :=
  over ∪ base.

(** [v?.name]: [undefined] on [null] and [undefined], the property
    otherwise ([undefined] when the value does not carry it). *)
Definition optional_get (v : JsVal) (name : string) : JsVal :=
  match v with
  | JObj fields => default JUndefined (fields !! name)
  | _ => JUndefined
  end.

(** [xs[i]] on an array: [undefined] out of range. *)
Definition index (xs : list JsVal) (i : nat) : JsVal :=
  default JUndefined (xs !! i).

(* ===================================================================== *)
(** ** Data model *)
(* ===================================================================== *)

Record OpenApiConfigValue : Type := {
  path : string;
  method : string;
  params : option (list string)
}.

Record OpenApiStore : Type := {
  host : string;
  config : gmap string OpenApiConfigValue
}.

Inductive SecurityCheckDecision : Type :=
| pass | warning | danger | forbidden | loading | pending.

Record SecurityCheckItem : Type := {
  alert_text : string;
  id : Z
}.

Record SecurityCheckResponse : Type := {
  decision : SecurityCheckDecision;
  alert : string;
  danger_list : list SecurityCheckItem;
  warning_list : list SecurityCheckItem;
  forbidden_list : list SecurityCheckItem
}.

Record Tx : Type := {
  chainId : Z;
  data : string;
  from : string;
  gas : string;
  gasPrice : string;
  nonce : string;
  to : string;
  value : string;
  r : option string;
  s : option string;
  v : option string
}.

(** The transaction as the object that travels in a request. *)
Definition optional_field (name : string) (o : option string)
  : list (string * JsVal) :=
  match o with
  | Some x => [(name, JStr x)]
  | None => []
  end.

Definition tx_object (tx : Tx) : JsVal :=
  obj ([("chainId", JNum (chainId tx)); ("data", JStr (data tx));
        ("from", JStr (from tx)); ("gas", JStr (gas tx));
        ("gasPrice", JStr (gasPrice tx)); ("nonce", JStr (nonce tx));
        ("to", JStr (to tx)); ("value", JStr (value tx))]
       ++ optional_field "r" (r tx) ++ optional_field "s" (s tx)
       ++ optional_field "v" (v tx)).

Definition EVM_RPC_METHODS : list string :=
  ["eth_getTransactionCount"; "eth_blockNumber"; "eth_call"; "eth_estimateGas"].

(** An entry of the discovery payload as it arrives: [rmethod] is [None]
    when the entry carries no string under [method], so that calling
    [toLowerCase] on it raises. *)
Record RawConfigValue : Type := {
  rpath : string;
  rmethod : option string;
  rparams : option (list string)
}.

(* ===================================================================== *)
(** ** Errors, promises and the state of the service *)
(* ===================================================================== *)

Inductive Error : Type :=
| TypeError (what : string)
| TransportError (reason : string).

(** How a promise settles (a synchronous throw is a rejection too). *)
Inductive Outcome (A : Type) : Type :=
| Resolved (a : A)
| Rejected (e : Error).
Arguments Resolved {A} a.
Arguments Rejected {A} e.

(** [rateLimit(axios.create({ baseURL }), { maxRPS })]. *)
Record Transport : Type := {
  baseURL : option string;
  maxRPS : Z
}.

Definition rateLimit (base : option string) (rps : Z) : Transport :=
  {| baseURL := base; maxRPS := rps |}.

(** [via[verb](url, arg)]: one request handed to the HTTP client. *)
Record Call : Type := {
  via : Transport;
  verb : string;
  url : string;
  arg : option JsVal
}.

(** What a dynamically mounted method closes over. *)
Record Mounted : Type := {
  m_config : OpenApiConfigValue;
  m_rest : list string
}.

Inductive LogEntry : Type :=
| LogError (tag : string) (e : Error)
| LogParams (p : option (list JsVal)).

(** [store], [request] and [mounted] are the fields of the service object;
    [storage] is the persisted record, [wire] the requests issued so far
    (oldest first), [console] what was logged. *)
Record World : Type := {
  store : option OpenApiStore;
  request : Transport;
  mounted : gmap string Mounted;
  storage : option OpenApiStore;
  wire : list Call;
  console : list LogEntry
}.

Definition M (A : Type) : Type := World -> Outcome A * World.

Definition ret {A} (a : A) : M A := fun w => (Resolved a, w).

Definition throw {A} (e : Error) : M A := fun w => (Rejected e, w).

Definition bind {A B} (m : M A) (k : A -> M B) : M B :=
  fun w =>
    match m w with
    | (Resolved a, w') => k a w'
    | (Rejected e, w') => (Rejected e, w')
    end.

Definition try_catch {A} (body : M A) (handler : Error -> M A) : M A :=
  fun w =>
    match body w with
    | (Resolved a, w') => (Resolved a, w')
    | (Rejected e, w') => handler e w'
    end.

Notation "x <- c1 ;; c2" := (bind c1 (fun x => c2))
  (at level 100, c1 at next level, right associativity).
Notation "c1 ;; c2" := (bind c1 (fun _ => c2))
  (at level 100, right associativity).

Definition lift {A} (r : Error + A) : M A :=
  match r with
  | inl e => throw e
  | inr a => ret a
  end.

(** The service object right after construction: [store] is declared but
    not assigned, [request] is [rateLimit(axios.create(), { maxRPS: 25 })]. *)
Definition fresh (persisted : option OpenApiStore) : World :=
  {| store := None; request := rateLimit None 25; mounted := ∅;
     storage := persisted; wire := []; console := [] |}.

(** *** Field access *)

(** Reading [this.store]: any property access on it raises while it is
    still undefined. *)
Definition this_store : M OpenApiStore :=
  fun w =>
    match store w with
    | Some st => (Resolved st, w)
    | None => (Rejected (TypeError "this.store is undefined"), w)
    end.

(** [this.store = st]. *)
Definition assign_store (st : OpenApiStore) : M unit :=
  fun w =>
    (Resolved tt,
     {| store := Some st; request := request w; mounted := mounted w;
        storage := storage w; wire := wire w; console := console w |}).

(** A property assignment on [this.store]: the record is the persisted
    one, so the write reaches [storage] as well. *)
Definition write_store (f : OpenApiStore -> OpenApiStore) : M unit :=
  fun w =>
    match store w with
    | Some st =>
        (Resolved tt,
         {| store := Some (f st); request := request w; mounted := mounted w;
            storage := Some (f st); wire := wire w; console := console w |})
    | None => (Rejected (TypeError "this.store is undefined"), w)
    end.

(** [this.request = t]. *)
Definition assign_request (t : Transport) : M unit :=
  fun w =>
    (Resolved tt,
     {| store := store w; request := t; mounted := mounted w;
        storage := storage w; wire := wire w; console := console w |}).

(** [this[name] = closure]. *)
Definition assign_method (name : string) (closure : Mounted) : M unit :=
  fun w =>
    (Resolved tt,
     {| store := store w; request := request w;
        mounted := <[name := closure]> (mounted w);
        storage := storage w; wire := wire w; console := console w |}).

Definition log (entry : LogEntry) : M unit :=
  fun w =>
    (Resolved tt,
     {| store := store w; request := request w; mounted := mounted w;
        storage := storage w; wire := wire w;
        console := console w ++ [entry] |}).

(** [await this.request[verb](url, arg)]: the request goes out through the
    current transport and the promise settles as [reply]. *)
Definition send {T} (verb url : string) (arg : option JsVal)
    (reply : Outcome T) : M T :=
  fun w =>
    (reply,
     {| store := store w; request := request w; mounted := mounted w;
        storage := storage w;
        wire := wire w ++ [{| via := request w; verb := verb; url := url;
                              arg := arg |}];
        console := console w |}).

(** [this.store.config[key]] followed by the first property read on the
    entry ([prop]), which raises when the table has no such key. *)
Definition route (key prop : string) : M OpenApiConfigValue :=
  st <- this_store ;;
  match config st !! key with
  | Some entry => ret entry
  | None => throw (TypeError ("Cannot read property '" ++ prop ++ "' of undefined"))
  end.

(* ===================================================================== *)
(** ** The service *)
(* ===================================================================== *)

(** The bundled template of [init]. *)
Definition entry (p m : string) (ps : option (list string))
  : OpenApiConfigValue :=
  {| path := p; method := m; params := ps |}.

Definition template : OpenApiStore :=
  {| host := "https://alpha-openapi.debank.com";
     config := list_to_map
       [("get_supported_chains",
          entry "/v1/wallet/supported_chains" "get" (Some []));
        ("get_total_balance",
          entry "/v1/user/total_balance" "get" (Some ["id"]));
        ("get_pending_tx_count",
          entry "/v1/wallet/pending_tx_count" "get" (Some ["id"]));
        ("recommend_chains",
          entry "/v1/wallet/recommend_chains" "get" (Some ["origin"; "id"]));
        ("check_origin_to_connect",
          entry "/v1/wallet/security/check_origin" "get" None);
        ("explain_origin_to_connect",
          entry "/v1/wallet/explain_origin" "get"
                (Some ["origin"; "title"; "return_logo"]));
        ("explain_text_to_sign",
          entry "/v1/wallet/api/explain_text" "get"
                (Some ["origin"; "text"; "user_addr"]));
        ("check_text_to_sign",
          entry "/v1/wallet/check_text" "post"
                (Some ["origin"; "text"; "user_addr"]));
        ("explain_tx_to_sign", entry "/v1/wallet/explain_tx" "get" None);
        ("check_tx_to_sign", entry "/v1/wallet/check_tx" "post" None);
        ("gas_market",
          entry "/v1/wallet/gas_market" "get"
                (Some ["chainId"; "custom_price"]));
        ("push_tx", entry "/v1/wallet/push_tx" "get" None)] |}.

(** Modelled from the spec: [createPersistStore] of [background/utils],
    which is not part of the sources at hand.  It "returns persisted value
    or seeds+persists the template if absent", and the record it returns is
    the persisted one: "all later field mutations must be durably reflected
    before the call returns" (see [write_store]). *)
Definition createPersistStore (tpl : OpenApiStore) : M OpenApiStore :=
  fun w =>
    match storage w with
    | Some st => (Resolved st, w)
    | None =>
        (Resolved tpl,
         {| store := store w; request := request w; mounted := mounted w;
            storage := Some tpl; wire := wire w; console := console w |})
    end.

Definition getHost : M string :=
  st <- this_store ;; ret (host st).

(** The loop of [getConfig], [data[key].method = data[key].method.toLowerCase()]
    for every key: it raises at the first entry without a string method,
    and otherwise leaves every entry with its method in lower case. *)
Definition lower_entry (e : RawConfigValue) : option OpenApiConfigValue :=
  m ← rmethod e;
  Some {| path := rpath e; method := toLowerCase m; params := rparams e |}.

Definition lower_methods (payload : gmap string RawConfigValue)
  : Error + gmap string OpenApiConfigValue :=
  if bool_decide (map_Forall (fun _ e => is_Some (lower_entry e)) payload)
  then inr (omap lower_entry payload)
  else inl (TypeError "Cannot read property 'toLowerCase' of undefined").

Definition getConfig (reply : Outcome (gmap string RawConfigValue)) : M unit :=
  st <- this_store ;;
  payload <- send "get" (host st ++ "/v1/wallet/config") None reply ;;
  lowered <- lift (lower_methods payload) ;;
  write_store (fun st => {| host := host st; config := lowered |}).

Section Mount.

(** [underline2Camelcase] of [background/utils] names the property a
    dynamic method is stored under; it is not part of the sources at hand
    and is left open. *)
Variable underline2Camelcase : string -> string.

(** [_mountMethods]: for each name in turn, read its entry (the read of
    [config.params] raises when there is none) and attach the callable. *)
Fixpoint _mountMethods (methods : list string) : M unit :=
  match methods with
  | [] => ret tt
  | name :: more =>
      cfg <- route name "params" ;;
      assign_method (underline2Camelcase name)
        {| m_config := cfg; m_rest := tail (default [] (params cfg)) |} ;;
      _mountMethods more
  end.

Definition init (reply : Outcome (gmap string RawConfigValue)) : M unit :=
  st <- createPersistStore template ;;
  assign_store st ;;
  assign_request (rateLimit (Some (host st)) 25) ;;
  try_catch
    (getConfig reply ;; _mountMethods EVM_RPC_METHODS)
    (fun e => log (LogError "[rabby] openapi init error" e)).

Definition setHost (h : string)
    (reply : Outcome (gmap string RawConfigValue)) : M unit :=
  write_store (fun st => {| host := h; config := config st |}) ;;
  init reply.

End Mount.

(** The state [getConfig] starts from inside [init]: the store is loaded
    (or seeded from the template) and the transport rebuilt. *)
Definition loaded (w : World) : World :=
  let st := default template (storage w) in
  {| store := Some st; request := rateLimit (Some (host st)) 25;
     mounted := mounted w; storage := Some st; wire := wire w;
     console := console w |}.

(** The request [getConfig] issues from inside [init]. *)
Definition config_fetch (st : OpenApiStore) : Call :=
  {| via := rateLimit (Some (host st)) 25; verb := "get";
     url := host st ++ "/v1/wallet/config"; arg := None |}.

(** *** Dynamically mounted methods *)

(** [rest.reduce((m, n, i) => { m[n] = params[i]; return m }, {})]: the
    callback runs once per remaining name; reading [params[i]] raises when
    the caller passed no [params] at all. *)
Fixpoint reduce_params (rest : list string) (i : nat)
    (args : option (list JsVal)) (m : gmap string JsVal)
  : Error + gmap string JsVal :=
  match rest with
  | [] => inr m
  | n :: rest' =>
      match args with
      | None => inl (TypeError "Cannot read property of undefined")
      | Some xs => reduce_params rest' (S i) args (<[n := index xs i]> m)
      end
  end.

(** [{ chain_id: chainId, ...rest.reduce(...) }]. *)
Definition reqData (rest : list string) (chain : JsVal)
    (args : option (list JsVal)) : Error + gmap string JsVal :=
  match reduce_params rest 0 args ∅ with
  | inl e => inl e
  | inr m => inr (spread {["chain_id" := chain]} m)
  end.

(** The callable attached by [_mountMethods]. *)
Definition dynamic_call (closure : Mounted) (chain : JsVal)
    (args : option (list JsVal)) (reply : Outcome JsVal) : M JsVal :=
  let cfg := m_config closure in
  req <- lift (reqData (m_rest closure) chain args) ;;
  (if bool_decide (method cfg = "post") then log (LogParams args) else ret tt) ;;
  let _config :=
    if bool_decide (method cfg = "get") then obj [("params", JObj req)]
    else JObj req in
  body <- send (method cfg) (path cfg) (Some _config) reply ;;
  ret (optional_get body "result").

(** [this[name](chainId, params)]. *)
Definition call_mounted (name : string) (chain : JsVal)
    (args : option (list JsVal)) (reply : Outcome JsVal) : M JsVal :=
  fun w =>
    match mounted w !! name with
    | Some closure => dynamic_call closure chain args reply w
    | None => (Rejected (TypeError "this[name] is not a function"), w)
    end.

(** *** Typed operations

    Each one reads its entry under a fixed key, issues
    [this.request[config.method](config.path, ...)] and returns the [data]
    of the reply. *)

Definition getSupportedChains {T} (reply : Outcome T) : M T :=
  cfg <- route "get_supported_chains" "method" ;;
  send (method cfg) (path cfg) None reply.

Definition getRecommendChains {T} (address origin : string)
    (reply : Outcome T) : M T :=
  cfg <- route "recommend_chains" "method" ;;
  send (method cfg) (path cfg)
    (Some (obj [("params",
                 obj [("user_addr", JStr (toLowerCase address));
                      ("origin", JStr origin)])]))
    reply.

Definition getTotalBalance {T} (address : string) (reply : Outcome T) : M T :=
  cfg <- route "get_total_balance" "method" ;;
  send (method cfg) (path cfg)
    (Some (obj [("params", obj [("id", JStr (toLowerCase address))])]))
    reply.

Definition getPendingCount {T} (address : string) (reply : Outcome T) : M T :=
  cfg <- route "get_pending_tx_count" "method" ;;
  send (method cfg) (path cfg)
    (Some (obj [("params", obj [("user_addr", JStr (toLowerCase address))])]))
    reply.

Definition checkOrigin {T} (address origin : string)
    (reply : Outcome T) : M T :=
  cfg <- route "check_origin" "method" ;;
  send (method cfg) (path cfg)
    (Some (obj [("params",
                 obj [("user_addr", JStr (toLowerCase address));
                      ("origin", JStr origin)])]))
    reply.

Definition checkText {T} (address origin text : string)
    (reply : Outcome T) : M T :=
  cfg <- route "check_text" "method" ;;
  send (method cfg) (path cfg)
    (Some (obj [("user_addr", JStr (toLowerCase address));
                ("origin", JStr origin);
                ("text", JStr text)]))
    reply.

Definition checkTx {T} (tx : Tx) (origin address : string)
    (update_nonce : option bool) (reply : Outcome T) : M T :=
  cfg <- route "check_tx" "method" ;;
  send (method cfg) (path cfg)
    (Some (obj [("user_addr", JStr (toLowerCase address));
                ("origin", JStr origin);
                ("tx", tx_object tx);
                ("update_nonce", JBool (default false update_nonce))]))
    reply.

Definition explainTx {T} (tx : Tx) (origin address : string)
    (update_nonce : option bool) (reply : Outcome T) : M T :=
  cfg <- route "explain_tx" "method" ;;
  send (method cfg) (path cfg)
    (Some (obj [("tx", tx_object tx);
                ("user_addr", JStr (toLowerCase address));
                ("origin", JStr origin);
                ("update_nonce", JBool (default false update_nonce))]))
    reply.

Definition pushTx {T} (tx : Tx) (reply : Outcome T) : M T :=
  cfg <- route "push_tx" "method" ;;
  send (method cfg) (path cfg) (Some (obj [("tx", tx_object tx)])) reply.

Definition explainText {T} (origin address text : string)
    (reply : Outcome T) : M T :=
  cfg <- route "explain_text" "method" ;;
  send (method cfg) (path cfg)
    (Some (obj [("user_addr", JStr (toLowerCase address));
                ("origin", JStr origin);
                ("text", JStr text)]))
    reply.

Definition gasMarket {T} (chain : string) (customGas : option Z)
    (reply : Outcome T) : M T :=
  cfg <- route "gas_market" "method" ;;
  send (method cfg) (path cfg)
    (Some (obj [("params",
                 obj [("chain_id", JStr chain);
                      ("custom_price",
                       match customGas with
                       | Some g => JNum g
                       | None => JUndefined
                       end)])]))
    reply.

(* ===================================================================== *)
(** ** The typed operations as one family *)
(* ===================================================================== *)

(** A call of one of the typed operations, with its arguments. *)
Inductive TypedOp : Type :=
| GetSupportedChains
| GetRecommendChains (address origin : string)
| GetTotalBalance (address : string)
| GetPendingCount (address : string)
| CheckOrigin (address origin : string)
| CheckText (address origin text : string)
| CheckTx (tx : Tx) (origin address : string) (update_nonce : option bool)
| ExplainTx (tx : Tx) (origin address : string) (update_nonce : option bool)
| PushTx (tx : Tx)
| ExplainText (origin address text : string)
| GasMarket (chain : string) (customGas : option Z).

Definition run {T} (op : TypedOp) (reply : Outcome T) : M T :=
  match op with
  | GetSupportedChains => getSupportedChains reply
  | GetRecommendChains a o => getRecommendChains a o reply
  | GetTotalBalance a => getTotalBalance a reply
  | GetPendingCount a => getPendingCount a reply
  | CheckOrigin a o => checkOrigin a o reply
  | CheckText a o t => checkText a o t reply
  | CheckTx tx o a u => checkTx tx o a u reply
  | ExplainTx tx o a u => explainTx tx o a u reply
  | PushTx tx => pushTx tx reply
  | ExplainText o a t => explainText o a t reply
  | GasMarket c g => gasMarket c g reply
  end.

(** The key each operation reads in [this.store.config]. *)
Definition route_key (op : TypedOp) : string :=
  match op with
  | GetSupportedChains => "get_supported_chains"
  | GetRecommendChains _ _ => "recommend_chains"
  | GetTotalBalance _ => "get_total_balance"
  | GetPendingCount _ => "get_pending_tx_count"
  | CheckOrigin _ _ => "check_origin"
  | CheckText _ _ _ => "check_text"
  | CheckTx _ _ _ _ => "check_tx"
  | ExplainTx _ _ _ _ => "explain_tx"
  | PushTx _ => "push_tx"
  | ExplainText _ _ _ => "explain_text"
  | GasMarket _ _ => "gas_market"
  end.

(** The address argument of the operations that take one. *)
Definition address_of (op : TypedOp) : option string :=
  match op with
  | GetRecommendChains a _ | GetTotalBalance a | GetPendingCount a
  | CheckOrigin a _ | CheckText a _ _ | CheckTx _ _ a _
  | ExplainTx _ _ a _ | ExplainText _ a _ => Some a
  | GetSupportedChains | PushTx _ | GasMarket _ _ => None
  end.

(** The same call with another address. *)
Definition with_address (a : string) (op : TypedOp) : TypedOp :=
  match op with
  | GetRecommendChains _ o => GetRecommendChains a o
  | GetTotalBalance _ => GetTotalBalance a
  | GetPendingCount _ => GetPendingCount a
  | CheckOrigin _ o => CheckOrigin a o
  | CheckText _ o t => CheckText a o t
  | CheckTx tx o _ u => CheckTx tx o a u
  | ExplainTx tx o _ u => ExplainTx tx o a u
  | ExplainText o _ t => ExplainText o a t
  | GetSupportedChains | PushTx _ | GasMarket _ _ => op
  end.

(** The second argument each typed operation hands to the transport. *)
Definition request_arg (op : TypedOp) : option JsVal :=
  match op with
  | GetSupportedChains => None
  | GetRecommendChains a o | CheckOrigin a o =>
      Some (obj [("params", obj [("user_addr", JStr (toLowerCase a));
                                 ("origin", JStr o)])])
  | GetTotalBalance a =>
      Some (obj [("params", obj [("id", JStr (toLowerCase a))])])
  | GetPendingCount a =>
      Some (obj [("params", obj [("user_addr", JStr (toLowerCase a))])])
  | CheckText a o t | ExplainText o a t =>
      Some (obj [("user_addr", JStr (toLowerCase a)); ("origin", JStr o);
                 ("text", JStr t)])
  | CheckTx tx o a u =>
      Some (obj [("user_addr", JStr (toLowerCase a)); ("origin", JStr o);
                 ("tx", tx_object tx);
                 ("update_nonce", JBool (default false u))])
  | ExplainTx tx o a u =>
      Some (obj [("tx", tx_object tx); ("user_addr", JStr (toLowerCase a));
                 ("origin", JStr o);
                 ("update_nonce", JBool (default false u))])
  | PushTx tx => Some (obj [("tx", tx_object tx)])
  | GasMarket c g =>
      Some (obj [("params",
                  obj [("chain_id", JStr c);
                       ("custom_price",
                        match g with Some x => JNum x | None => JUndefined end)])])
  end.

(** The five operations whose keys the bundled template has to serve after
    a failed refresh. *)
Definition risk_and_explain (op : TypedOp) : bool :=
  match op with
  | CheckOrigin _ _ | CheckText _ _ _ | CheckTx _ _ _ _
  | ExplainTx _ _ _ _ | ExplainText _ _ _ => true
  | _ => false
  end.

(** The three risk checks, which return a [SecurityCheckResponse]. *)
Definition risk_check (op : TypedOp) : bool :=
  match op with
  | CheckOrigin _ _ | CheckText _ _ _ | CheckTx _ _ _ _ => true
  | _ => false
  end.

(** *** Reading a request *)

(** The named fields a request carries: those under [params] when the
    second argument is an axios configuration with query parameters, the
    second argument itself when it is the request body. *)
Definition fields_of (c : Call) : gmap string JsVal :=
  match arg c with
  | Some (JObj o) =>
      match o !! "params" with
      | Some (JObj q) => q
      | _ => o
      end
  | _ => ∅
  end.

(** The field that carries the address: [user_addr], or [id] for the
    total balance. *)
Definition sent_address (c : Call) : option JsVal :=
  match fields_of c !! "user_addr" with
  | Some a => Some a
  | None => fields_of c !! "id"
  end.

(** The requests issued since the wire held [before] of them. *)
Definition issued (before : World) (after : World) : list Call :=
  drop (length (wire before)) (wire after).


(** Two route tables that agree on every key's path and method and may
    differ in the declared parameter names. *)
Definition same_path_and_method (t1 t2 : gmap string OpenApiConfigValue)
  : Prop :=
  forall key,
    (fun e => (path e, method e)) <$> (t1 !! key)
    = (fun e => (path e, method e)) <$> (t2 !! key).

(** The world with another record behind [this.store]. *)
Definition with_store (st : OpenApiStore) (w : World) : World :=
  {| store := Some st; request := request w; mounted := mounted w;
     storage := storage w; wire := wire w; console := console w |}.



(* ===================================================================== *)
(** ** What the specification asks for *)
(* ===================================================================== *)

(** Binding of a dynamic call in the specification's words: the remaining
    names are zipped with the extra arguments positionally into an object,
    then [chain_id] is merged in. *)
Definition zip_object (names : list string) (values : list JsVal)
  : gmap string JsVal :=
  foldl (fun m nv => <[nv.1 := nv.2]> m) ∅ (zip names values).

Definition bound_request (paramNames : list string) (chain : JsVal)
    (extraArgs : list JsVal) : gmap string JsVal :=
  <["chain_id" := chain]> (zip_object (tail paramNames) extraArgs).

(** How a bound request travels: as query parameters for [get], as the
    request body otherwise. *)
Definition as_query_or_body (m : string) (req : gmap string JsVal) : JsVal :=
  if bool_decide (m = "get") then obj [("params", JObj req)] else JObj req.

(** A refresh fails when the request for the discovery document is
    rejected, or when the document holds an entry without a string method. *)
Definition refresh_failed (reply : Outcome (gmap string RawConfigValue)) : Prop :=
  match reply with
  | Rejected _ => True
  | Resolved payload =>
      exists key e, payload !! key = Some e /\ rmethod e = None
  end.

(** "Either fully replaces the Route Table or leaves it fully unchanged":
    [new] is the fetched mapping, every method in lower case, or it is
    [old] and the refresh failed. *)
Definition all_or_nothing (old new : gmap string OpenApiConfigValue)
    (reply : Outcome (gmap string RawConfigValue)) : Prop :=
  (exists payload,
      reply = Resolved payload
      /\ ~ refresh_failed reply
      /\ forall key,
           new !! key
           = (fun e => entry (rpath e) (toLowerCase (default "" (rmethod e)))
                             (rparams e)) <$> (payload !! key))
  \/ (new = old /\ refresh_failed reply).

(** The decision the specification's invariant asks for: the most severe
    non-empty bucket under pass < warning < danger < forbidden, and [pass]
    when all three are empty. *)
Definition highest_bucket (res : SecurityCheckResponse)
  : SecurityCheckDecision :=
  match forbidden_list res, danger_list res, warning_list res with
  | _ :: _, _, _ => forbidden
  | [], _ :: _, _ => danger
  | [], [], _ :: _ => warning
  | [], [], [] => pass
  end.

(** Whether a reply body carries a [result]. *)
Definition has_result (body : JsVal) : bool :=
  match body with
  | JObj o => bool_decide (is_Some (o !! "result"))
  | _ => false
  end.

(** How a dynamic call settles for a given settlement of its request. *)
Definition unwrapped (reply : Outcome JsVal) : Outcome JsVal :=
  match reply with
  | Resolved body => Resolved (optional_get body "result")
  | Rejected e => Rejected e
  end.

(* ===================================================================== *)
(** ** Sample data *)
(* ===================================================================== *)

Definition raw (p m : string) (ps : option (list string)) : RawConfigValue :=
  {| rpath := p; rmethod := Some m; rparams := ps |}.

(** A discovery payload as a backend may serve it. *)
Definition discovered : gmap string RawConfigValue :=
  list_to_map
    [("get_supported_chains", raw "/v1/wallet/supported_chains" "GET" (Some []));
     ("recommend_chains", raw "/v1/wallet/recommend_chains" "GET" None);
     ("get_total_balance", raw "/v1/user/total_balance" "GET" None);
     ("get_pending_tx_count", raw "/v1/wallet/pending_tx_count" "GET" None);
     ("check_origin", raw "/v1/wallet/check_origin" "GET" None);
     ("check_text", raw "/v1/wallet/check_text" "POST" None);
     ("check_tx", raw "/v1/wallet/check_tx" "POST" None);
     ("explain_tx", raw "/v1/wallet/explain_tx" "POST" None);
     ("explain_text", raw "/v1/wallet/explain_text" "POST" None);
     ("gas_market", raw "/v1/wallet/gas_market" "GET" None);
     ("push_tx", raw "/v1/wallet/push_tx" "POST" None);
     ("eth_getTransactionCount",
        raw "/v1/wallet/eth_rpc/get_tx_count" "POST" (Some ["chainId"; "params"]));
     ("eth_blockNumber", raw "/v1/wallet/eth_rpc/block_number" "GET" (Some ["chainId"]));
     ("eth_call", raw "/v1/wallet/eth_rpc/call" "POST" (Some ["chainId"; "params"]));
     ("eth_estimateGas",
        raw "/v1/wallet/eth_rpc/estimate_gas" "POST" (Some ["chainId"; "params"]))].

(** The same payload without an entry for [eth_call]. *)
Definition discovered_without_eth_call : gmap string RawConfigValue :=
  delete "eth_call" discovered.

(** A payload whose second entry has no [method]. *)
Definition half_broken : gmap string RawConfigValue :=
  list_to_map
    [("get_total_balance", raw "/v2/user/total_balance" "GET" None);
     ("recommend_chains",
        {| rpath := "/v2/wallet/recommend_chains"; rmethod := None;
           rparams := None |})].

Definition network_down {A} : Outcome A :=
  Rejected (TransportError "Network Error").

(** First start with nothing persisted and the backend unreachable. *)
Definition stranded (camel : string -> string) : World :=
  (init camel network_down (fresh None)).2.

(** First start with nothing persisted and [discovered] served. *)
Definition started (camel : string -> string) : World :=
  (init camel (Resolved discovered) (fresh None)).2.

(** The service right after a refresh that served
    [discovered_without_eth_call], before the dynamic methods are mounted. *)
Definition refreshed_without_eth_call : World :=
  (getConfig (Resolved discovered_without_eth_call) (loaded (fresh None))).2.

Definition sample_tx : Tx :=
  {| chainId := 1; data := "0x"; from := "0xAbCd"; gas := "0x5208";
     gasPrice := "0x1"; nonce := "0x0"; to := "0xEf01"; value := "0x0";
     r := None; s := None; v := None |}.

(** A reply that contradicts its own buckets. *)
Definition inconsistent_reply : SecurityCheckResponse :=
  {| decision := pass; alert := "";
     danger_list := [];
     warning_list := [];
     forbidden_list := [{| alert_text := "phishing site"; id := 7 |}] |}.

(** The route of the specification's round-trip example. *)
Definition example_route (m : string) : OpenApiConfigValue :=
  {| path := "/v1/example"; method := m;
     params := Some ["chainId"; "origin"; "id"] |}.

Definition example_world (m : string) : World :=
  with_store {| host := "https://example.test";
                config := {["example_op" := example_route m]} |}
             (fresh None).

(* ===================================================================== *)
(** ** The refresh on whatever the backend returns *)
(* ===================================================================== *)

(** [getConfig] above takes the reply as the request declares it, a record
    of entries.  At run time [data] is whatever the body of the reply
    parsed to; the definitions below follow lines 253 to 257 on any value
    and on [this.store.config] alone. *)

(** [data[key].method = data[key].method.toLowerCase()] on the entry
    [v = data[key]]: the entry with its method in lower case, or [None]
    when the statement raises a TypeError, which it does on an entry that
    is not an object, on one without [method] and on one whose [method] is
    not a string. *)
Definition lower_method (v : JsVal) : option JsVal :=
  match v with
  | JObj o =>
      match o !! "method" with
      | Some (JStr m) => Some (JObj (<["method" := JStr (toLowerCase m)]> o))
      | _ => None
      end
  | _ => None
  end.

(** The TypeError of the loop (one message stands for the messages the
    engine words by the kind of entry). *)
Definition refresh_error : Error :=
  TypeError "Cannot read property 'toLowerCase' of undefined".

(** [for (const key in data) ...]: over the properties of an object, the
    indices of an array and the characters of a text (each a string, which
    has no [method]); [null], [undefined], numbers and booleans have
    nothing to iterate over and pass as they are. *)
Definition lower_methods_data (data : JsVal) : Error + JsVal :=
  match data with
  | JObj fields =>
      if bool_decide (map_Forall (fun _ v => is_Some (lower_method v)) fields)
      then inr (JObj (omap lower_method fields))
      else inl refresh_error
  | JArr items =>
      match mapM lower_method items with
      | Some lowered => inr (JArr lowered)
      | None => inl refresh_error
      end
  | JStr text => if bool_decide (text = "") then inr data else inl refresh_error
  | _ => inr data
  end.

(** [getConfig] as it acts on [this.store.config]: given the value held
    before and the settlement of the request, how the call settles and the
    value held after ([this.store.config = data] is its last statement). *)
Definition getConfig_data (old : JsVal) (reply : Outcome JsVal)
  : Outcome unit * JsVal :=
  match reply with
  | Rejected e => (Rejected e, old)
  | Resolved data =>
      match lower_methods_data data with
      | inl e => (Rejected e, old)
      | inr lowered => (Resolved tt, lowered)
      end
  end.

(** The records of the typed model as the values they are at run time. *)
Definition names_data (ps : option (list string)) : list (string * JsVal) :=
  match ps with
  | Some names => [("params", JArr (JStr <$> names))]
  | None => []
  end.

Definition raw_entry_data (e : RawConfigValue) : JsVal :=
  obj (("path", JStr (rpath e))
       :: match rmethod e with
          | Some m => [("method", JStr m)]
          | None => []
          end ++ names_data (rparams e)).

Definition entry_data (e : OpenApiConfigValue) : JsVal :=
  obj (("path", JStr (path e)) :: ("method", JStr (method e))
       :: names_data (params e)).

Definition payload_data (payload : gmap string RawConfigValue) : JsVal :=
  JObj (raw_entry_data <$> payload).

Definition table_data (table : gmap string OpenApiConfigValue) : JsVal :=
  JObj (entry_data <$> table).

(** *** What the refresh is to do, in words of the data *)

(** The entries the loop visits. *)
Definition entries (data : JsVal) : list JsVal :=
  match data with
  | JObj fields => (map_to_list fields).*2
  | JArr items => items
  | JStr text =>
      (fun c => JStr (String c EmptyString)) <$> list_ascii_of_string text
  | _ => []
  end.

(** The entry is an object with a string under [method]. *)
Definition has_string_method (v : JsVal) : Prop :=
  exists o m, v = JObj o /\ o !! "method" = Some (JStr m).

(** [after] is [before] with its method in lower case and nothing else
    changed. *)
Definition method_lowered (before after : JsVal) : Prop :=
  exists o m,
    before = JObj o /\ o !! "method" = Some (JStr m)
    /\ after = JObj (<["method" := JStr (toLowerCase m)]> o).

(** [lowered] is [data] with the method of every entry in lower case: the
    same keys (or indices), entry by entry; data without entries is left as
    it is. *)
Definition methods_lowered (data lowered : JsVal) : Prop :=
  match data with
  | JObj fields =>
      exists fields',
        lowered = JObj fields'
        /\ forall key : string,
             match fields !! key with
             | Some v => exists v', fields' !! key = Some v' /\ method_lowered v v'
             | None => fields' !! key = None
             end
  | JArr items =>
      exists items', lowered = JArr items' /\ Forall2 method_lowered items items'
  | JStr text => text = "" /\ lowered = data
  | _ => lowered = data
  end.

(* ===================================================================== *)
(** ** The binding of a dynamic call as the code has it *)
(* ===================================================================== *)

(** The extra arguments, with [undefined] for every position a name may
    ask for beyond them. *)
Definition padded (names : list string) (extraArgs : list JsVal) : list JsVal :=
  (extraArgs ++ replicate (length names) JUndefined)%list.

(** The request of a dynamic call: every name after the first is bound to
    the argument at its position, [undefined] where none was passed, and
    [chain_id] is the chain of the call unless a declared name took it. *)
Definition request_as_bound (paramNames : list string) (chain : JsVal)
    (extraArgs : list JsVal) : gmap string JsVal :=
  zip_object (tail paramNames) (padded (tail paramNames) extraArgs)
  ∪ {["chain_id" := chain]}.

(** *** More sample data *)

(** A discovery document with its methods in upper and mixed case. *)
Definition served_data : JsVal :=
  obj [("eth_call",
        obj [("path", JStr "/v1/wallet/eth_rpc/call"); ("method", JStr "POST");
             ("params", JArr [JStr "chainId"; JStr "params"])]);
       ("get_total_balance",
        obj [("path", JStr "/v1/user/total_balance"); ("method", JStr "Get")])].

Definition served_data_lowered : JsVal :=
  obj [("eth_call",
        obj [("path", JStr "/v1/wallet/eth_rpc/call"); ("method", JStr "post");
             ("params", JArr [JStr "chainId"; JStr "params"])]);
       ("get_total_balance",
        obj [("path", JStr "/v1/user/total_balance"); ("method", JStr "get")])].

(** A document whose only entry has no [path]. *)
Definition pathless_data : JsVal :=
  obj [("check_origin", obj [("method", JStr "GET")])].

(** A service whose table holds one route with the given declared names. *)
Definition route_world (names : list string) (m : string) : World :=
  with_store {| host := "https://example.test";
                config := {["example_op" :=
                             {| path := "/v1/example"; method := m;
                                params := Some names |}]} |}
             (fresh None).

(* ===================================================================== *)
(** ** What mounting leaves behind *)
(* ===================================================================== *)

(** The callable [_mountMethods] builds for a route entry. *)
Definition closure_of (cfg : OpenApiConfigValue) : Mounted :=
  {| m_config := cfg; m_rest := tail (default [] (params cfg)) |}.

(** The methods of the service object after the names of [methods] that
    have an entry in [table] were attached in turn, a later name replacing
    an earlier one stored under the same property. *)
Definition attach (camel : string -> string)
    (table : gmap string OpenApiConfigValue) (methods : list string)
    (before : gmap string Mounted) : gmap string Mounted :=
  foldl (fun m name =>
           match table !! name with
           | Some cfg => <[camel name := closure_of cfg]> m
           | None => m
           end) before methods.

(** The world with other methods on the service object. *)
Definition with_mounted (ms : gmap string Mounted) (w : World) : World :=
  {| store := store w; request := request w; mounted := ms;
     storage := storage w; wire := wire w; console := console w |}.

(** Two discovery payloads that differ at most in the letter case of
    their methods. *)
Definition same_entry_ignoring_case (e1 e2 : RawConfigValue) : Prop :=
  rpath e1 = rpath e2 /\ rparams e1 = rparams e2
  /\ match rmethod e1, rmethod e2 with
     | Some m1, Some m2 => same_ignoring_case m1 m2 = true
     | None, None => True
     | _, _ => False
     end.

Definition same_payload_ignoring_case
    (p1 p2 : gmap string RawConfigValue) : Prop :=
  forall key,
    match p1 !! key, p2 !! key with
    | Some e1, Some e2 => same_entry_ignoring_case e1 e2
    | None, None => True
    | _, _ => False
    end.

(* ===================================================================== *)
(** ** The address management page *)
(* ===================================================================== *)

(** The component [AddressManagement] of the second source text.  The
    wallet, the message bar and the modal are collaborators of the page:
    what a handler asks of them is recorded as a list of [UiEvent]s, oldest
    first, and what they answer is an argument of the handler ([None] for
    a rejected promise, whose error the handlers never look at). *)
Module AddressManagement.

Record HiddenAddress : Type := {
  type : string;
  address : string
}.

(** The keyring type names of [consts], which is not part of the sources
    at hand. *)
Record Consts : Type := {
  HdKeyring : string;
  SimpleKeyring : string;
  WatchAddressKeyring : string;
  Ledger : string;
  Trezor : string;
  Onekey : string
}.

Inductive UiEvent : Type :=
| Authenticate
| GetCurrentMnemonics
| ExportAccount (account : string)
| ModalInfo (title content : string)
| GetAccountsCount
| ShowAddress (keyring account : string)
| HideAddress (keyring account : string)
| MessageError (text : string).

(** [item.type === keyring.type && item.address === data]. *)
Definition is_item (keyring account : string) (item : HiddenAddress) : bool :=
  bool_decide (type item = keyring) && bool_decide (address item = account).

(** [item.type !== keyring.type || item.address !== data]. *)
Definition is_other (keyring account : string) (item : HiddenAddress) : bool :=
  negb (bool_decide (type item = keyring))
  || negb (bool_decide (address item = account)).

(** [hiddenAddresses.find(...)], as a truth value. *)
Definition found (hiddenAddresses : list HiddenAddress)
    (keyring account : string) : bool :=
  match List.find (is_item keyring account) hiddenAddresses with
  | Some _ => true
  | None => false
  end.

(** [handleViewMnemonics]: authenticate, fetch the mnemonic, show it; any
    rejection on the way ends the handler silently. *)
Definition handleViewMnemonics (auth : option unit) (mnemonic : option string)
  : list UiEvent :=
  Authenticate ::
  match auth with
  | None => []
  | Some _ =>
      GetCurrentMnemonics ::
      match mnemonic with
      | None => []
      | Some m => [ModalInfo "Mnemonics" m]
      end
  end.

(** [handlleViewPrivateKey] of the action button of [account]. *)
Definition handlleViewPrivateKey (account : string) (auth : option unit)
    (privateKey : option string) : list UiEvent :=
  Authenticate ::
  match auth with
  | None => []
  | Some _ =>
      ExportAccount account ::
      match privateKey with
      | None => []
      | Some k => [ModalInfo "Private Key" k]
      end
  end.

(** [handleToggleAddressVisible]: the list of hidden addresses the page
    holds afterwards ([setHiddenAddresses]) and what was asked of the
    wallet and the message bar.  [totalCount] is the answer to
    [wallet.getAccountsCount()], asked only when the address is to be
    hidden. *)
Definition handleToggleAddressVisible (hiddenAddresses : list HiddenAddress)
    (keyring account : string) (totalCount : option Z)
  : list HiddenAddress * list UiEvent :=
  if found hiddenAddresses keyring account
  then (List.filter (is_other keyring account) hiddenAddresses,
        [ShowAddress keyring account])
  else
    match totalCount with
    | None => (hiddenAddresses, [GetAccountsCount])
    | Some total =>
        if (Z.of_nat (length hiddenAddresses) >=? total - 1)%Z
        then (hiddenAddresses,
              [GetAccountsCount;
               MessageError "Keep at least one address visible."])
        else ((hiddenAddresses
               ++ [{| type := keyring; address := account |}])%list,
              [GetAccountsCount; HideAddress keyring account])
    end.

(** [hiddenAddresses.find((item) => item.address === data &&
    item.type === keyring.type)], as a truth value: the test of the menu
    label and of the badge. *)
Definition listed (hiddenAddresses : list HiddenAddress)
    (keyring account : string) : bool :=
  match List.find (fun item => bool_decide (address item = account)
                               && bool_decide (type item = keyring))
                  hiddenAddresses with
  | Some _ => true
  | None => false
  end.

Inductive MenuItem : Type :=
| ToggleVisible (label : string)
| ViewPrivateKey
| DeleteAddress.

(** [DropdownOptions]: the menu of the action button, by keyring type; the
    cases of the [switch] are tried in the order they are written
    ([Ledger], [Trezor] and [Onekey] stand for the [type] of the entries of
    [HARDWARE_KEYRING_TYPES]). *)
Definition DropdownOptions (consts : Consts)
    (hiddenAddresses : list HiddenAddress) (keyring account : string)
  : list MenuItem :=
  let visibility :=
    ToggleVisible ((if listed hiddenAddresses keyring account
                    then "Show" else "Hide") ++ " address") in
  if bool_decide (keyring = HdKeyring consts) then [visibility; ViewPrivateKey]
  else if bool_decide (keyring = SimpleKeyring consts)
  then [visibility; ViewPrivateKey]
  else if bool_decide (keyring = Ledger consts)
          || bool_decide (keyring = Trezor consts)
          || bool_decide (keyring = Onekey consts)
          || bool_decide (keyring = WatchAddressKeyring consts)
  then [DeleteAddress]
  else [].

(** Whether the action button shows the [Hidden] badge. *)
Definition hidden_badge (hiddenAddresses : list HiddenAddress)
    (keyring account : string) : bool :=
  listed hiddenAddresses keyring account.

(** Sample data. *)
Definition sample_consts : Consts :=
  {| HdKeyring := "HD Key Tree"; SimpleKeyring := "Simple Key Pair";
     WatchAddressKeyring := "Watch Address"; Ledger := "Ledger Hardware";
     Trezor := "Trezor Hardware"; Onekey := "Onekey Hardware" |}.

Definition sample_hidden : list HiddenAddress :=
  [{| type := "HD Key Tree"; address := "0xaa" |}].

End AddressManagement.

(* ===================================================================== *)
(** ** Lower-casing *)
(* ===================================================================== *)

Lemma lower_ascii_not_upper (c : ascii) : is_upper (lower_ascii c) = false.
Proof. destruct c as [[] [] [] [] [] [] [] []]; reflexivity. Qed.

Lemma lower_ascii_idem (c : ascii) : lower_ascii (lower_ascii c) = lower_ascii c.
Proof.
  unfold lower_ascii at 1. now rewrite lower_ascii_not_upper.
Qed.

Lemma toLowerCase_lower_cased (a : string) :
  is_lower_cased (toLowerCase a) = true.
Proof.
  induction a as [|c a IH]; simpl; [reflexivity|].
  now rewrite lower_ascii_not_upper, IH.
Qed.

Lemma toLowerCase_idem (a : string) :
  toLowerCase (toLowerCase a) = toLowerCase a.
Proof.
  induction a as [|c a IH]; simpl; [reflexivity|].
  now rewrite lower_ascii_idem, IH.
Qed.

Lemma toLowerCase_same_ignoring_case (a b : string) :
  same_ignoring_case a b = true -> toLowerCase a = toLowerCase b.
Proof.
  revert b. induction a as [|c a IH]; intros [|d b]; simpl; try discriminate.
  - reflexivity.
  - intros H. apply andb_prop in H as [Hc Hab].
    apply bool_decide_eq_true in Hc. rewrite Hc. f_equal. now apply IH.
Qed.

Lemma same_ignoring_case_toLowerCase (a : string) :
  same_ignoring_case a (toLowerCase a) = true.
Proof.
  induction a as [|c a IH]; simpl; [reflexivity|].
  rewrite lower_ascii_idem, IH.
  now rewrite bool_decide_eq_true_2.
Qed.

(* ===================================================================== *)
(** ** The monad and the route lookup *)
(* ===================================================================== *)

Lemma route_found key prop w st e :
  store w = Some st -> config st !! key = Some e ->
  route key prop w = (Resolved e, w).
Proof.
  intros Hst He. unfold route, bind, this_store. now rewrite Hst, He.
Qed.

Lemma route_missing key prop w st :
  store w = Some st -> config st !! key = None ->
  route key prop w
  = (Rejected (TypeError ("Cannot read property '" ++ prop ++ "' of undefined")), w).
Proof.
  intros Hst He. unfold route, bind, this_store. now rewrite Hst, He.
Qed.

Lemma route_unloaded key prop w :
  store w = None ->
  route key prop w = (Rejected (TypeError "this.store is undefined"), w).
Proof.
  intros Hst. unfold route, bind, this_store. now rewrite Hst.
Qed.

(** Every typed operation is one lookup under its key followed by one
    request with the entry's method and path. *)
Lemma run_unfold {T} (op : TypedOp) (reply : Outcome T) :
  run op reply
  = (cfg <- route (route_key op) "method" ;;
     send (method cfg) (path cfg) (request_arg op) reply).
Proof. destruct op; reflexivity. Qed.

Lemma run_found {T} (op : TypedOp) (reply : Outcome T) w st e :
  store w = Some st -> config st !! route_key op = Some e ->
  run op reply w = send (method e) (path e) (request_arg op) reply w.
Proof.
  intros Hst He. rewrite run_unfold. unfold bind.
  now rewrite (route_found _ _ _ _ _ Hst He).
Qed.

Lemma run_missing {T} (op : TypedOp) (reply : Outcome T) w st :
  store w = Some st -> config st !! route_key op = None ->
  run op reply w
  = (Rejected (TypeError "Cannot read property 'method' of undefined"), w).
Proof.
  intros Hst He. rewrite run_unfold. unfold bind.
  now rewrite (route_missing _ _ _ _ Hst He).
Qed.

Lemma issued_send {T} verb url a (reply : Outcome T) w :
  issued w (send verb url a reply w).2
  = [{| via := request w; verb := verb; url := url; arg := a |}].
Proof.
  unfold issued, send. simpl. now rewrite drop_app_length.
Qed.

Lemma issued_nothing w : issued w w = [].
Proof. unfold issued. apply drop_all. Qed.

(* ===================================================================== *)
(** ** The bundled template after a failed refresh *)
(* ===================================================================== *)

Lemma stranded_store camel : store (stranded camel) = Some template.
Proof. reflexivity. Qed.

(** C1. After a first start with the backend unreachable the bundled
    template is the route table, and it does NOT serve the five risk and
    explain operations: the key each of them reads ([check_origin],
    [check_text], [check_tx], [explain_tx], [explain_text]) is absent from
    the template, which files these routes under other names
    ([check_origin_to_connect], ...), so each of them rejects with a
    TypeError before any request is issued.  The other typed operations
    read keys the template does hold and go through. *)
Theorem C1_template_misses_risk_routes :
  forall (camel : string -> string) (T : Type) (op : TypedOp) (reply : Outcome T),
    if risk_and_explain op
    then config template !! route_key op = None
         /\ run op reply (stranded camel)
            = (Rejected (TypeError "Cannot read property 'method' of undefined"),
               stranded camel)
    else is_Some (config template !! route_key op)
         /\ (run op reply (stranded camel)).1 = reply.
Proof.
  intros camel T op reply.
  destruct (risk_and_explain op) eqn:Hop.
  - assert (Hnone : config template !! route_key op = None)
      by (destruct op; try discriminate Hop; vm_compute; reflexivity).
    split; [exact Hnone|].
    now apply (run_missing op reply _ template (stranded_store camel)).
  - assert (Hsome : is_Some (config template !! route_key op))
      by (destruct op; try discriminate Hop; vm_compute; eauto).
    split; [exact Hsome|].
    destruct Hsome as [e He].
    now rewrite (run_found op reply _ template e (stranded_store camel) He).
Qed.

(* ===================================================================== *)
(** ** Addresses *)
(* ===================================================================== *)

Lemma request_arg_address op a :
  address_of op = Some a ->
  forall verb url t,
    sent_address {| via := t; verb := verb; url := url; arg := request_arg op |}
    = Some (JStr (toLowerCase a)).
Proof.
  intros Ha verb url t.
  destruct op; simpl in Ha; inversion Ha; subst; reflexivity.
Qed.

Lemma request_arg_with_address op a a' :
  address_of op = Some a -> toLowerCase a = toLowerCase a' ->
  request_arg (with_address a' op) = request_arg op.
Proof.
  intros Ha Heq.
  destruct op; simpl in Ha; inversion Ha; subst; simpl; now rewrite Heq.
Qed.

Lemma route_key_with_address op a : route_key (with_address a op) = route_key op.
Proof. now destruct op. Qed.

(** C3. Every operation that takes an address issues, once its route is
    found, exactly one request, and the address field of that request is
    the lower-cased address: it holds no upper-case letter, and two
    addresses that differ only in the case of their letters lead to the
    very same request. *)
Theorem C3_address_sent_lower_cased :
  forall (T : Type) (op : TypedOp) (a : string) (reply : Outcome T)
         (w : World) (st : OpenApiStore) (e : OpenApiConfigValue),
    address_of op = Some a ->
    store w = Some st ->
    config st !! route_key op = Some e ->
    exists c,
      issued w (run op reply w).2 = [c]
      /\ sent_address c = Some (JStr (toLowerCase a))
      /\ is_lower_cased (toLowerCase a) = true
      /\ same_ignoring_case a (toLowerCase a) = true
      /\ forall a', same_ignoring_case a a' = true ->
                    run (with_address a' op) reply w = run op reply w.
Proof.
  intros T op a reply w st e Ha Hst He.
  rewrite (run_found op reply w st e Hst He).
  eexists. split; [apply issued_send|].
  split; [now apply request_arg_address|].
  split; [apply toLowerCase_lower_cased|].
  split; [apply same_ignoring_case_toLowerCase|].
  intros a' Hsame.
  assert (He' : config st !! route_key (with_address a' op) = Some e)
    by now rewrite route_key_with_address.
  rewrite (run_found _ reply w st e Hst He').
  rewrite (request_arg_with_address op a a' Ha); [reflexivity|].
  now apply toLowerCase_same_ignoring_case.
Qed.

Lemma C3_witness :
  exists c,
    issued (started (fun n => n))
           (run (CheckTx sample_tx "https://app.example" "0xAbCdEF" None)
                (Resolved inconsistent_reply) (started (fun n => n))).2 = [c]
    /\ sent_address c = Some (JStr "0xabcdef")
    /\ is_lower_cased "0xabcdef" = true
    /\ same_ignoring_case "0xAbCdEF" "0xabcdef" = true
    /\ forall a', same_ignoring_case "0xAbCdEF" a' = true ->
         run (with_address a' (CheckTx sample_tx "https://app.example" "0xAbCdEF" None))
             (Resolved inconsistent_reply) (started (fun n => n))
         = run (CheckTx sample_tx "https://app.example" "0xAbCdEF" None)
               (Resolved inconsistent_reply) (started (fun n => n)).
Proof.
  apply (C3_address_sent_lower_cased SecurityCheckResponse
           (CheckTx sample_tx "https://app.example" "0xAbCdEF" None) "0xAbCdEF"
           (Resolved inconsistent_reply) (started (fun n => n))
           {| host := host template; config := omap lower_entry discovered |}
           (entry "/v1/wallet/check_tx" "post" None)).
  - reflexivity.
  - vm_compute. reflexivity.
  - vm_compute. reflexivity.
Defined.

(* ===================================================================== *)
(** ** Refreshing the route table *)
(* ===================================================================== *)

Lemma lower_methods_inr (payload : gmap string RawConfigValue) lowered :
  lower_methods payload = inr lowered ->
  lowered = omap lower_entry payload
  /\ forall key e, payload !! key = Some e -> is_Some (rmethod e).
Proof.
  unfold lower_methods. case_bool_decide as Hall; [|discriminate].
  intros [= <-]. split; [reflexivity|].
  intros key e He. specialize (Hall key e He). simpl in Hall.
  unfold lower_entry in Hall. destruct (rmethod e); [eauto|].
  now destruct Hall.
Qed.

Lemma lower_methods_inl (payload : gmap string RawConfigValue) err :
  lower_methods payload = inl err ->
  exists key e, payload !! key = Some e /\ rmethod e = None.
Proof.
  unfold lower_methods. case_bool_decide as Hall; [discriminate|].
  intros _. apply map_not_Forall in Hall; [|apply _].
  destruct Hall as (key & e & He & Hno). exists key, e. split; [exact He|].
  unfold lower_entry in Hno. destruct (rmethod e) as [m|]; [|reflexivity].
  exfalso. apply Hno. simpl. eauto.
Qed.

Lemma lookup_lowered (payload : gmap string RawConfigValue) (key : string) :
  (forall k e, payload !! k = Some e -> is_Some (rmethod e)) ->
  omap lower_entry payload !! key
  = (fun e => entry (rpath e) (toLowerCase (default "" (rmethod e))) (rparams e))
      <$> (payload !! key).
Proof.
  intros Hall. rewrite lookup_omap.
  destruct (payload !! key) as [e|] eqn:He; [|reflexivity].
  destruct (Hall key e He) as [m Hm]. simpl.
  unfold lower_entry. now rewrite Hm.
Qed.

Lemma init_unfold camel reply w :
  init camel reply w
  = try_catch (getConfig reply ;; _mountMethods camel EVM_RPC_METHODS)
              (fun e => log (LogError "[rabby] openapi init error" e))
              (loaded w).
Proof.
  unfold init, bind, createPersistStore, assign_store, assign_request, loaded.
  destruct (storage w) as [st|] eqn:Hsto; simpl; rewrite ?Hsto; reflexivity.
Qed.

(** Mounting touches nothing but the methods of the service object. *)
Lemma mount_frame camel methods w :
  exists o ms,
    _mountMethods camel methods w
    = (o, {| store := store w; request := request w; mounted := ms;
             storage := storage w; wire := wire w; console := console w |}).
Proof.
  revert w. induction methods as [|name more IH]; intros w.
  - exists (Resolved tt), (mounted w). now destruct w.
  - cbn [_mountMethods]. unfold bind at 1.
    destruct (store w) as [st|] eqn:Hst; rewrite <- Hst.
    + destruct (config st !! name) as [cfg|] eqn:He.
      * rewrite (route_found _ _ _ _ _ Hst He).
        unfold bind, assign_method.
        match goal with |- context [_mountMethods camel more ?w1] =>
          destruct (IH w1) as (o & ms & ->) end.
        now exists o, ms.
      * rewrite (route_missing _ _ _ _ Hst He).
        eexists _, (mounted w). now destruct w.
    + rewrite (route_unloaded _ _ _ Hst).
      eexists _, (mounted w). now destruct w.
Qed.

Lemma getConfig_failed reply w st :
  store w = Some st -> refresh_failed reply ->
  exists err,
    getConfig reply w
    = (Rejected err,
       {| store := store w; request := request w; mounted := mounted w;
          storage := storage w;
          wire := wire w ++ [{| via := request w; verb := "get";
                                url := host st ++ "/v1/wallet/config";
                                arg := None |}];
          console := console w |}).
Proof.
  intros Hst Hfail. unfold getConfig, bind, this_store. rewrite Hst.
  destruct reply as [payload|err]; simpl.
  - destruct (lower_methods payload) as [err|lowered] eqn:Hlow; simpl.
    + exists err. now rewrite Hst.
    + apply lower_methods_inr in Hlow as [_ Hall].
      destruct Hfail as (key & e & He & Hno).
      destruct (Hall key e He) as [m Hm]. congruence.
  - exists err. now rewrite Hst.
Qed.

Lemma getConfig_done payload w st :
  store w = Some st -> ~ refresh_failed (Resolved payload) ->
  getConfig (Resolved payload) w
  = (Resolved tt,
     {| store := Some {| host := host st; config := omap lower_entry payload |};
        request := request w; mounted := mounted w;
        storage := Some {| host := host st; config := omap lower_entry payload |};
        wire := wire w ++ [{| via := request w; verb := "get";
                              url := host st ++ "/v1/wallet/config";
                              arg := None |}];
        console := console w |}).
Proof.
  intros Hst Hok. unfold getConfig, bind, this_store. rewrite Hst. simpl.
  destruct (lower_methods payload) as [err|lowered] eqn:Hlow; simpl.
  - apply lower_methods_inl in Hlow. now destruct Hok.
  - apply lower_methods_inr in Hlow as [-> _].
    unfold write_store. simpl. now rewrite Hst.
Qed.

Lemma refresh_failed_dec reply : refresh_failed reply \/ ~ refresh_failed reply.
Proof.
  destruct reply as [payload|err]; [|now left].
  destruct (lower_methods payload) as [err|lowered] eqn:Hlow.
  - left. now apply lower_methods_inl in Hlow.
  - right. apply lower_methods_inr in Hlow as [_ Hall].
    intros (key & e & He & Hno). destruct (Hall key e He). congruence.
Qed.

Lemma not_failed_all_methods (payload : gmap string RawConfigValue) :
  ~ refresh_failed (Resolved payload) ->
  forall (k : string) e, payload !! k = Some e -> is_Some (rmethod e).
Proof.
  intros Hok k e He. destruct (rmethod e) as [m|] eqn:Hm; [eauto|].
  exfalso. apply Hok. now exists k, e.
Qed.

Lemma init_failed camel reply w :
  refresh_failed reply ->
  exists err,
    init camel reply w
    = (Resolved tt,
       {| store := Some (default template (storage w));
          request := rateLimit (Some (host (default template (storage w)))) 25;
          mounted := mounted w;
          storage := Some (default template (storage w));
          wire := wire w ++ [config_fetch (default template (storage w))];
          console := console w ++ [LogError "[rabby] openapi init error" err] |}).
Proof.
  intros Hfail. rewrite init_unfold. unfold try_catch, bind.
  destruct (getConfig_failed reply (loaded w) _ eq_refl Hfail) as [err ->].
  now exists err.
Qed.

Lemma init_done camel payload w :
  ~ refresh_failed (Resolved payload) ->
  exists ms logs,
    init camel (Resolved payload) w
    = (Resolved tt,
       {| store := Some {| host := host (default template (storage w));
                           config := omap lower_entry payload |};
          request := rateLimit (Some (host (default template (storage w)))) 25;
          mounted := ms;
          storage := Some {| host := host (default template (storage w));
                             config := omap lower_entry payload |};
          wire := wire w ++ [config_fetch (default template (storage w))];
          console := console w ++ logs |}).
Proof.
  intros Hok. rewrite init_unfold. unfold try_catch, bind.
  rewrite (getConfig_done payload (loaded w) _ eq_refl Hok).
  match goal with |- context [_mountMethods camel EVM_RPC_METHODS ?w1] =>
    destruct (mount_frame camel EVM_RPC_METHODS w1) as (o & ms & ->)
  end.
  destruct o as [[]|err].
  - exists ms, []. simpl. now rewrite app_nil_r.
  - now exists ms, [LogError "[rabby] openapi init error" err].
Qed.

(** The two ways [init] can go, with the world it leaves in each. *)
Ltac init_cases camel reply w :=
  let Hfail := fresh "Hfail" in
  let Hok := fresh "Hok" in
  let err := fresh "err" in
  let payload := fresh "payload" in
  let ms := fresh "ms" in
  let logs := fresh "logs" in
  destruct (refresh_failed_dec reply) as [Hfail|Hok];
  [ destruct (init_failed camel reply w Hfail) as [err ->]
  | destruct reply as [payload|err]; [|now destruct Hok];
    destruct (init_done camel payload w Hok) as (ms & logs & ->) ].

Lemma init_resolves camel reply w : (init camel reply w).1 = Resolved tt.
Proof. init_cases camel reply w; reflexivity. Qed.

(** On a reply of the declared type the refresh is all or nothing, and
    [init] contains its failure.
    [getConfig] on a loaded service either rejects and leaves the store as
    it was, or resolves with the whole table replaced by the fetched
    mapping, every method in lower case; it rejects exactly when the request
    is rejected or some entry of the payload has no string method.  [init]
    always resolves, and the table it leaves, in the service and in
    storage, is the loaded one or the fetched one as a whole. *)
Lemma getConfig_all_or_nothing :
  forall (camel : string -> string)
         (reply : Outcome (gmap string RawConfigValue)) (w : World),
    (match store w with
     | Some st =>
         exists st',
           store (getConfig reply w).2 = Some st'
           /\ storage (getConfig reply w).2
              = match (getConfig reply w).1 with
                | Resolved _ => Some st'
                | Rejected _ => storage w
                end
           /\ host st' = host st
           /\ all_or_nothing (config st) (config st') reply
           /\ ((exists err, (getConfig reply w).1 = Rejected err)
               <-> refresh_failed reply)
     | None =>
         getConfig reply w = (Rejected (TypeError "this.store is undefined"), w)
     end)
    /\ (init camel reply w).1 = Resolved tt
    /\ exists st',
         store (init camel reply w).2 = Some st'
         /\ storage (init camel reply w).2 = Some st'
         /\ host st' = host (default template (storage w))
         /\ all_or_nothing (config (default template (storage w)))
                           (config st') reply.
Proof.
  intros camel reply w. split; [|split].
  - destruct (store w) as [st|] eqn:Hst.
    + destruct (refresh_failed_dec reply) as [Hfail|Hok].
      * destruct (getConfig_failed reply w st Hst Hfail) as [err ->]. simpl.
        exists st. split; [exact Hst|]. split; [reflexivity|].
        split; [reflexivity|]. split; [right; now split|].
        split; eauto.
      * destruct reply as [payload|err]; [|now destruct Hok].
        rewrite (getConfig_done payload w st Hst Hok). simpl.
        eexists. split; [reflexivity|]. split; [reflexivity|].
        split; [reflexivity|]. split.
        -- left. exists payload. split; [reflexivity|]. split; [exact Hok|].
           intros key. simpl. apply lookup_lowered.
           now apply not_failed_all_methods.
        -- split; [intros [err Herr]; discriminate|].
           intros Hfail. now destruct Hok.
    + unfold getConfig, bind, this_store. now rewrite Hst.
  - apply init_resolves.
  - init_cases camel reply w; simpl;
      (eexists; split; [reflexivity|]; split; [reflexivity|];
       split; [reflexivity|]).
    + right. now split.
    + left. exists payload. split; [reflexivity|]. split; [exact Hok|].
      intros key. simpl. apply lookup_lowered.
      now apply not_failed_all_methods.
Qed.

(* ===================================================================== *)
(** ** The refresh on any reply data *)
(* ===================================================================== *)

Lemma lower_method_Some (v v' : JsVal) :
  lower_method v = Some v' <-> method_lowered v v'.
Proof.
  unfold method_lowered. split.
  - destruct v as [| | | | | |o]; simpl; try discriminate.
    destruct (o !! "method") as [[| | | |m| |]|] eqn:Hm; try discriminate.
    intros [= <-]. now exists o, m.
  - intros (o & m & -> & Hm & ->). simpl. now rewrite Hm.
Qed.

Lemma lower_method_None (v : JsVal) :
  lower_method v = None <-> ~ has_string_method v.
Proof.
  unfold has_string_method. split.
  - intros Hnone (o & m & -> & Hm). simpl in Hnone. rewrite Hm in Hnone.
    discriminate.
  - intros Hno. destruct (lower_method v) as [v'|] eqn:Hv; [|reflexivity].
    apply lower_method_Some in Hv as (o & m & -> & Hm & _).
    exfalso. apply Hno. now exists o, m.
Qed.

Lemma lower_methods_data_lowered (data lowered : JsVal) :
  lower_methods_data data = inr lowered <-> methods_lowered data lowered.
Proof.
  destruct data as [| |b|n|text|items|fields]; simpl;
    try (split; [now intros [= <-]|now intros ->]).
  - case_bool_decide as Htext; split.
    + now intros [= <-].
    + now intros [_ ->].
    + discriminate.
    + now intros [? _].
  - split.
    + destruct (mapM lower_method items) as [items'|] eqn:Hm; [|discriminate].
      intros [= <-]. exists items'. split; [reflexivity|].
      apply mapM_Some in Hm. eapply Forall2_impl; [exact Hm|].
      intros v v' Hv. now apply lower_method_Some.
    + intros (items' & -> & Hall).
      assert (Hm : mapM lower_method items = Some items').
      { apply mapM_Some. eapply Forall2_impl; [exact Hall|].
        intros v v' Hv. now apply lower_method_Some. }
      now rewrite Hm.
  - split.
    + case_bool_decide as Hall; [|discriminate].
      intros [= <-]. exists (omap lower_method fields). split; [reflexivity|].
      intros key. rewrite lookup_omap.
      destruct (fields !! key) as [v|] eqn:Hv; [|reflexivity].
      destruct (Hall key v Hv) as [v' Hv']. simpl. rewrite Hv'.
      exists v'. split; [reflexivity|]. now apply lower_method_Some.
    + intros (fields' & -> & Hkeys).
      rewrite bool_decide_eq_true_2.
      * f_equal. f_equal. apply map_eq. intros key. rewrite lookup_omap.
        specialize (Hkeys key).
        destruct (fields !! key) as [v|]; simpl; [|now rewrite Hkeys].
        destruct Hkeys as (v' & -> & Hv). now apply lower_method_Some.
      * intros key v Hv. specialize (Hkeys key). rewrite Hv in Hkeys.
        destruct Hkeys as (v' & _ & Hv'). simpl.
        apply lower_method_Some in Hv'. rewrite Hv'. eauto.
Qed.

Lemma lower_methods_data_raises (data : JsVal) (v : JsVal) :
  v ∈ entries data -> ~ has_string_method v ->
  lower_methods_data data = inl refresh_error.
Proof.
  intros Hin Hno. apply lower_method_None in Hno.
  destruct data as [| |b|n|text|items|fields]; simpl in *;
    try (now inversion Hin).
  - case_bool_decide as Htext; [|reflexivity]. subst text. inversion Hin.
  - assert (Hm : mapM lower_method items = None).
    { apply mapM_None, Exists_exists. now exists v. }
    now rewrite Hm.
  - apply list_elem_of_fmap in Hin as ([key v0] & -> & Hin).
    apply elem_of_map_to_list in Hin. simpl in Hno.
    rewrite bool_decide_eq_false_2; [reflexivity|].
    intros Hall. specialize (Hall key v0 Hin). simpl in Hall.
    rewrite Hno in Hall. now destruct Hall.
Qed.

Lemma lower_methods_data_inl (data : JsVal) (err : Error) :
  lower_methods_data data = inl err ->
  err = refresh_error
  /\ exists v, v ∈ entries data /\ ~ has_string_method v.
Proof.
  destruct data as [| |b|n|text|items|fields]; simpl; try discriminate.
  - case_bool_decide as Htext; [discriminate|]. intros [= <-].
    split; [reflexivity|].
    destruct text as [|c text]; [now destruct Htext|].
    exists (JStr (String c EmptyString)). split.
    + simpl. apply elem_of_cons. now left.
    + intros (o & m & Hv & _). discriminate.
  - destruct (mapM lower_method items) as [items'|] eqn:Hm; [discriminate|].
    intros [= <-]. split; [reflexivity|].
    apply mapM_None, Exists_exists in Hm as (v & Hin & Hv).
    exists v. split; [exact Hin|]. now apply lower_method_None.
  - case_bool_decide as Hall; [discriminate|]. intros [= <-].
    split; [reflexivity|].
    apply map_not_Forall in Hall as (key & v & Hv & Hno); [|apply _].
    exists v. split.
    + apply list_elem_of_fmap. exists (key, v). split; [reflexivity|].
      now apply elem_of_map_to_list.
    + apply lower_method_None. simpl in Hno.
      destruct (lower_method v); [|reflexivity].
      exfalso. apply Hno. eauto.
Qed.

Lemma lower_method_raw_entry (e : RawConfigValue) :
  lower_method (raw_entry_data e) = entry_data <$> lower_entry e.
Proof.
  destruct e as [p [m|] [ps|]]; reflexivity.
Qed.

(** On a reply of the declared type, the loop over the data is the loop
    of the typed model. *)
Lemma lower_methods_data_typed (payload : gmap string RawConfigValue) :
  lower_methods_data (payload_data payload)
  = match lower_methods payload with
    | inr table => inr (table_data table)
    | inl err => inl err
    end.
Proof.
  unfold lower_methods, payload_data, table_data. simpl.
  assert (Hiff : map_Forall (fun _ v => is_Some (lower_method v))
                            (raw_entry_data <$> payload)
                 <-> map_Forall (fun _ e => is_Some (lower_entry e)) payload).
  { assert (Hent : forall e, is_Some (lower_method (raw_entry_data e))
                             <-> is_Some (lower_entry e))
      by (intros e; rewrite lower_method_raw_entry; apply fmap_is_Some).
    rewrite map_Forall_fmap.
    split; intros Hall key e He; apply Hent; apply (Hall key e He). }
  case_bool_decide as H1; case_bool_decide as H2;
    try reflexivity; try (exfalso; tauto).
  f_equal. f_equal. apply map_eq. intros key.
  rewrite lookup_omap, !lookup_fmap, lookup_omap.
  destruct (payload !! key) as [e|]; simpl; [|reflexivity].
  apply lower_method_raw_entry.
Qed.

(** C2, as stated, fails: replies that are no route table at all replace
    the table.  [null], an empty body and an empty array pass the loop
    untouched and are stored, and so is a document whose entry has no
    [path]; none of them leaves the bundled template in place. *)
Lemma C2_counterexample :
  getConfig_data (table_data (config template)) (Resolved JNull)
  = (Resolved tt, JNull)
  /\ getConfig_data (table_data (config template)) (Resolved (JStr ""))
     = (Resolved tt, JStr "")
  /\ getConfig_data (table_data (config template)) (Resolved (JArr []))
     = (Resolved tt, JArr [])
  /\ getConfig_data (table_data (config template)) (Resolved pathless_data)
     = (Resolved tt, obj [("check_origin", obj [("method", JStr "get")])])
  /\ table_data (config template) <> JNull
  /\ table_data (config template)
     <> obj [("check_origin", obj [("method", JStr "get")])].
Proof.
  split; [reflexivity|]. split; [reflexivity|]. split; [reflexivity|].
  split; [vm_compute; reflexivity|]. split; [discriminate|].
  intros Heq.
  assert (Hkey : optional_get (table_data (config template)) "gas_market"
                 = optional_get (obj [("check_origin",
                                       obj [("method", JStr "get")])])
                                "gas_market") by now rewrite Heq.
  vm_compute in Hkey. discriminate.
Qed.

(** C2, amended. The refresh replaces the whole table or leaves all of it.
    When every entry of the fetched data is an object with a string method
    (so also when the data has no entry at all), [getConfig] resolves and
    [this.store.config] is the fetched data with every method in lower
    case and nothing else changed.  When the request is rejected, or some
    entry has no string method, [getConfig] rejects and
    [this.store.config] is what it was.  There is no third outcome.  On a
    reply of the declared type this is the refresh of the typed model, and
    [init] always resolves, with the table it loaded or the fetched one as
    a whole, in the service and in storage; whatever the refresh and the
    mounting raise, the [try] of [init] ends in a resolved call. *)
Theorem C2_refresh_all_or_nothing :
  forall (old data lowered : JsVal),
    methods_lowered data lowered ->
    getConfig_data old (Resolved data) = (Resolved tt, lowered)
    /\ (forall err, getConfig_data old (Rejected err) = (Rejected err, old))
    /\ (forall bad v,
          v ∈ entries bad -> ~ has_string_method v ->
          getConfig_data old (Resolved bad) = (Rejected refresh_error, old))
    /\ (forall reply,
          (exists err,
              getConfig_data old reply = (Rejected err, old)
              /\ (reply = Rejected err
                  \/ exists bad v, reply = Resolved bad /\ v ∈ entries bad
                                   /\ ~ has_string_method v))
          \/ (exists fetched stored,
                 reply = Resolved fetched
                 /\ methods_lowered fetched stored
                 /\ getConfig_data old reply = (Resolved tt, stored)))
    /\ (forall (table : gmap string OpenApiConfigValue)
               (payload : gmap string RawConfigValue),
          getConfig_data (table_data table) (Resolved (payload_data payload))
          = match lower_methods payload with
            | inr fetched => (Resolved tt, table_data fetched)
            | inl err => (Rejected err, table_data table)
            end)
    /\ (forall (camel : string -> string)
               (reply : Outcome (gmap string RawConfigValue)) (w : World),
          (init camel reply w).1 = Resolved tt
          /\ exists st',
               store (init camel reply w).2 = Some st'
               /\ storage (init camel reply w).2 = Some st'
               /\ host st' = host (default template (storage w))
               /\ all_or_nothing (config (default template (storage w)))
                                 (config st') reply)
    /\ (forall (refresh_and_mount : M unit) (w : World),
          (try_catch refresh_and_mount
             (fun e => log (LogError "[rabby] openapi init error" e)) w).1
          = Resolved tt).
Proof.
  intros old data lowered Hlowered.
  split; [|split; [|split; [|split; [|split; [|split]]]]].
  - simpl. apply lower_methods_data_lowered in Hlowered. now rewrite Hlowered.
  - reflexivity.
  - intros bad v Hin Hno. simpl.
    now rewrite (lower_methods_data_raises bad v Hin Hno).
  - intros [fetched|err]; simpl.
    + destruct (lower_methods_data fetched) as [err|stored] eqn:Hloop.
      * left. exists err. split; [reflexivity|]. right.
        apply lower_methods_data_inl in Hloop as (_ & v & Hin & Hno).
        now exists fetched, v.
      * right. exists fetched, stored. split; [reflexivity|].
        split; [now apply lower_methods_data_lowered|reflexivity].
    + left. exists err. split; [reflexivity|]. now left.
  - intros table payload. unfold getConfig_data.
    rewrite lower_methods_data_typed.
    now destruct (lower_methods payload).
  - intros camel reply w.
    destruct (getConfig_all_or_nothing camel reply w) as (_ & Hresolves & Htable).
    now split.
  - intros refresh_and_mount w. unfold try_catch.
    now destruct (refresh_and_mount w) as [[[]|err] w'].
Qed.

Lemma C2_witness :
  getConfig_data (table_data (config template)) (Resolved served_data)
  = (Resolved tt, served_data_lowered)
  /\ (forall err,
        getConfig_data (table_data (config template)) (Rejected err)
        = (Rejected err, table_data (config template)))
  /\ (forall bad v,
        v ∈ entries bad -> ~ has_string_method v ->
        getConfig_data (table_data (config template)) (Resolved bad)
        = (Rejected refresh_error, table_data (config template)))
  /\ (forall reply,
        (exists err,
            getConfig_data (table_data (config template)) reply
            = (Rejected err, table_data (config template))
            /\ (reply = Rejected err
                \/ exists bad v, reply = Resolved bad /\ v ∈ entries bad
                                 /\ ~ has_string_method v))
        \/ (exists fetched stored,
               reply = Resolved fetched
               /\ methods_lowered fetched stored
               /\ getConfig_data (table_data (config template)) reply
                  = (Resolved tt, stored)))
  /\ (forall (table : gmap string OpenApiConfigValue)
             (payload : gmap string RawConfigValue),
        getConfig_data (table_data table) (Resolved (payload_data payload))
        = match lower_methods payload with
          | inr fetched => (Resolved tt, table_data fetched)
          | inl err => (Rejected err, table_data table)
          end)
  /\ (forall (camel : string -> string)
             (reply : Outcome (gmap string RawConfigValue)) (w : World),
        (init camel reply w).1 = Resolved tt
        /\ exists st',
             store (init camel reply w).2 = Some st'
             /\ storage (init camel reply w).2 = Some st'
             /\ host st' = host (default template (storage w))
             /\ all_or_nothing (config (default template (storage w)))
                               (config st') reply)
  /\ (forall (refresh_and_mount : M unit) (w : World),
        (try_catch refresh_and_mount
           (fun e => log (LogError "[rabby] openapi init error" e)) w).1
        = Resolved tt).
Proof.
  apply (C2_refresh_all_or_nothing (table_data (config template))
           served_data served_data_lowered).
  apply lower_methods_data_lowered. vm_compute. reflexivity.
Defined.

(* ===================================================================== *)
(** ** Dynamically mounted methods *)
(* ===================================================================== *)

Lemma reduce_params_zip (rest : list string) (i : nat) (xs : list JsVal)
    (m : gmap string JsVal) :
  (length rest + i <= length xs)%nat ->
  reduce_params rest i (Some xs) m
  = inr (foldl (fun m nv => <[nv.1 := nv.2]> m) m (zip rest (drop i xs))).
Proof.
  revert i m. induction rest as [|n rest IH]; intros i m Hlen; simpl.
  - reflexivity.
  - simpl in Hlen.
    destruct (lookup_lt_is_Some_2 xs i ltac:(lia)) as [x Hx].
    rewrite (drop_S _ _ _ Hx). simpl.
    rewrite IH by lia. unfold index. now rewrite Hx.
Qed.

Lemma reduce_params_given (rest : list string) (i : nat) (xs : list JsVal)
    (m : gmap string JsVal) :
  exists m', reduce_params rest i (Some xs) m = inr m'.
Proof.
  revert i m. induction rest as [|n rest IH]; intros i m; simpl; eauto.
Qed.

Lemma reqData_given rest chain xs :
  exists req, reqData rest chain (Some xs) = inr req.
Proof.
  unfold reqData.
  destruct (reduce_params_given rest 0 xs ∅) as [m ->]. eauto.
Qed.

Lemma foldl_insert_other (pairs : list (string * JsVal))
    (m : gmap string JsVal) (key : string) :
  key ∉ pairs.*1 ->
  foldl (fun m nv => <[nv.1 := nv.2]> m) m pairs !! key = m !! key.
Proof.
  revert m. induction pairs as [|[n x] pairs IH]; intros m Hkey; simpl.
  - reflexivity.
  - simpl in Hkey. apply not_elem_of_cons in Hkey as [Hne Hkey].
    rewrite IH by exact Hkey. now rewrite lookup_insert_ne.
Qed.

Lemma zip_object_other (names : list string) (values : list JsVal)
    (key : string) :
  key ∉ names -> zip_object names values !! key = None.
Proof.
  intros Hkey. unfold zip_object. rewrite foldl_insert_other.
  - apply lookup_empty.
  - intros Hin. apply Hkey.
    apply list_elem_of_fmap in Hin as [[n x] [-> Hin]].
    now apply elem_of_zip_l in Hin.
Qed.

Lemma reqData_bound (names : list string) (chain : JsVal) (xs : list JsVal) :
  (length (tail names) <= length xs)%nat ->
  "chain_id" ∉ tail names ->
  reqData (tail names) chain (Some xs) = inr (bound_request names chain xs).
Proof.
  intros Hlen Hclash. unfold reqData, bound_request, spread.
  rewrite reduce_params_zip by lia. rewrite drop_0. fold (zip_object (tail names) xs).
  f_equal. symmetry. apply insert_union_singleton_r.
  now apply zip_object_other.
Qed.

Lemma mount_one camel name w st cfg :
  store w = Some st -> config st !! name = Some cfg ->
  _mountMethods camel [name] w
  = (Resolved tt,
     {| store := store w; request := request w;
        mounted := <[camel name :=
                      {| m_config := cfg;
                         m_rest := tail (default [] (params cfg)) |}]> (mounted w);
        storage := storage w; wire := wire w; console := console w |}).
Proof.
  intros Hst He. cbn [_mountMethods]. unfold bind at 1.
  now rewrite (route_found _ _ _ _ _ Hst He).
Qed.

Lemma dynamic_call_built closure chain args reply req w :
  reqData (m_rest closure) chain args = inr req ->
  (dynamic_call closure chain args reply w).1 = unwrapped reply
  /\ issued w (dynamic_call closure chain args reply w).2
     = [{| via := request w; verb := method (m_config closure);
           url := path (m_config closure);
           arg := Some (as_query_or_body (method (m_config closure)) req) |}].
Proof.
  intros Hreq. unfold dynamic_call, bind at 1. rewrite Hreq. simpl.
  unfold bind at 1, as_query_or_body, issued.
  case_bool_decide; simpl; unfold bind, send; simpl;
    destruct reply; simpl; rewrite drop_app_length; split; reflexivity.
Qed.

Lemma index_padded (names : list string) (xs : list JsVal) (i : nat) :
  index (padded names xs) i = index xs i.
Proof.
  unfold index, padded.
  destruct (decide (i < length xs)%nat) as [Hlt|Hge].
  - now rewrite lookup_app_l.
  - rewrite lookup_app_r by lia.
    rewrite (lookup_ge_None_2 xs i) by lia. simpl.
    destruct (replicate (length names) JUndefined !! (i - length xs)%nat)
      as [x|] eqn:Hx; [|reflexivity].
    apply lookup_replicate in Hx as [-> _]. reflexivity.
Qed.

Lemma reduce_params_index (rest : list string) (i : nat)
    (xs ys : list JsVal) (m : gmap string JsVal) :
  (forall j, index xs j = index ys j) ->
  reduce_params rest i (Some xs) m = reduce_params rest i (Some ys) m.
Proof.
  intros Hsame. revert i m.
  induction rest as [|n rest IH]; intros i m; simpl; [reflexivity|].
  now rewrite Hsame, IH.
Qed.

Lemma reqData_as_bound (names : list string) (chain : JsVal)
    (xs : list JsVal) :
  reqData (tail names) chain (Some xs) = inr (request_as_bound names chain xs).
Proof.
  unfold reqData, request_as_bound, spread.
  rewrite (reduce_params_index _ _ xs (padded (tail names) xs))
    by (intros j; symmetry; apply index_padded).
  rewrite reduce_params_zip
    by (unfold padded; rewrite length_app, length_replicate; lia).
  now rewrite drop_0.
Qed.

Lemma request_as_bound_in_range (names : list string) (chain : JsVal)
    (xs : list JsVal) :
  (length (tail names) <= length xs)%nat ->
  "chain_id" ∉ tail names ->
  request_as_bound names chain xs = bound_request names chain xs.
Proof.
  intros Hlen Hclash.
  pose proof (reqData_as_bound names chain xs) as Hcode.
  rewrite (reqData_bound names chain xs Hlen Hclash) in Hcode.
  now injection Hcode.
Qed.

(** C4, as stated, fails.  With [paramNames = ["chainId"; "origin"; "id"]]
    and the call [(1, ["foo"])] the request is not the zip of the remaining
    names with the one argument plus [chain_id]: it carries [id] as well,
    with [undefined].  With [paramNames = ["chainId"; "chain_id"]] and the
    call [(1, ["0x2"])] the request carries [chain_id: "0x2"], not the
    chain [1] of the call. *)
Lemma C4_counterexample :
  issued (_mountMethods (fun n => n) ["example_op"]
                        (route_world ["chainId"; "origin"; "id"] "get")).2
         (call_mounted "example_op" (JNum 1) (Some [JStr "foo"]) (Resolved JNull)
            (_mountMethods (fun n => n) ["example_op"]
                           (route_world ["chainId"; "origin"; "id"] "get")).2).2
  = [{| via := rateLimit None 25; verb := "get"; url := "/v1/example";
        arg := Some (obj [("params",
                           obj [("origin", JStr "foo"); ("id", JUndefined);
                                ("chain_id", JNum 1)])]) |}]
  /\ as_query_or_body "get"
       (bound_request ["chainId"; "origin"; "id"] (JNum 1) [JStr "foo"])
     = obj [("params", obj [("origin", JStr "foo"); ("chain_id", JNum 1)])]
  /\ issued (_mountMethods (fun n => n) ["example_op"]
                           (route_world ["chainId"; "chain_id"] "post")).2
            (call_mounted "example_op" (JNum 1) (Some [JStr "0x2"])
               (Resolved JNull)
               (_mountMethods (fun n => n) ["example_op"]
                              (route_world ["chainId"; "chain_id"] "post")).2).2
     = [{| via := rateLimit None 25; verb := "post"; url := "/v1/example";
           arg := Some (obj [("chain_id", JStr "0x2")]) |}]
  /\ as_query_or_body "post"
       (bound_request ["chainId"; "chain_id"] (JNum 1) [JStr "0x2"])
     = obj [("chain_id", JNum 1)]
  /\ obj [("origin", JStr "foo"); ("id", JUndefined); ("chain_id", JNum 1)]
     <> obj [("origin", JStr "foo"); ("chain_id", JNum 1)]
  /\ obj [("chain_id", JStr "0x2")] <> obj [("chain_id", JNum 1)].
Proof.
  split; [vm_compute; reflexivity|]. split; [vm_compute; reflexivity|].
  split; [vm_compute; reflexivity|]. split; [vm_compute; reflexivity|].
  split; intros Heq; vm_compute in Heq; discriminate.
Qed.

(** C4, amended. For every mounted dynamic operation and every call
    [(chainId, extraArgs)], the one request sent carries the object that
    binds each declared name after the first to the extra argument at its
    position, [undefined] where no argument was passed, and that carries
    [chain_id: chainId] unless a declared name after the first is
    [chain_id] itself, whose argument then stands; surplus arguments are
    dropped.  The object is sent as query parameters when the method of the
    route is [get] and as the request body otherwise.  For a call with at
    least as many extra arguments as names after the first, on a route
    that does not declare [chain_id], this is the binding of the
    specification; with [paramNames = ["chainId"; "origin"; "id"]] and
    the call [(1, ["foo"; "bar"])] it is
    [{origin: "foo", id: "bar", chain_id: 1}]. *)
Theorem C4_dynamic_binding :
  forall (camel : string -> string) (name : string) (cfg : OpenApiConfigValue)
         (st : OpenApiStore) (w : World) (chain : JsVal)
         (extraArgs : list JsVal) (reply : Outcome JsVal),
    store w = Some st ->
    config st !! name = Some cfg ->
    issued (_mountMethods camel [name] w).2
           (call_mounted (camel name) chain (Some extraArgs) reply
                         (_mountMethods camel [name] w).2).2
    = [{| via := request w; verb := method cfg; url := path cfg;
          arg := Some (as_query_or_body (method cfg)
                         (request_as_bound (default [] (params cfg)) chain
                                           extraArgs)) |}]
    /\ ((length (tail (default [] (params cfg))) <= length extraArgs)%nat ->
        "chain_id" ∉ tail (default [] (params cfg)) ->
        request_as_bound (default [] (params cfg)) chain extraArgs
        = bound_request (default [] (params cfg)) chain extraArgs)
    /\ request_as_bound ["chainId"; "origin"; "id"] (JNum 1)
                        [JStr "foo"; JStr "bar"]
       = list_to_map [("origin", JStr "foo"); ("id", JStr "bar");
                      ("chain_id", JNum 1)]
    /\ bound_request ["chainId"; "origin"; "id"] (JNum 1) [JStr "foo"; JStr "bar"]
       = list_to_map [("origin", JStr "foo"); ("id", JStr "bar");
                      ("chain_id", JNum 1)].
Proof.
  intros camel name cfg st w chain extraArgs reply Hst He.
  split; [|split; [|split]]; [| |reflexivity|reflexivity].
  - rewrite (mount_one camel name w st cfg Hst He).
    unfold call_mounted. cbn [snd mounted]. rewrite lookup_insert_eq.
    pose proof (reqData_as_bound (default [] (params cfg)) chain extraArgs)
      as Hreq.
    match goal with |- context [dynamic_call ?c chain _ reply ?w1] =>
      destruct (dynamic_call_built c chain (Some extraArgs) reply _ w1 Hreq)
        as [_ Hissued]
    end.
    exact Hissued.
  - apply request_as_bound_in_range.
Qed.

Lemma C4_witness :
  issued (_mountMethods (fun n => n) ["example_op"]
                        (route_world ["chainId"; "origin"; "id"] "post")).2
         (call_mounted "example_op" (JNum 1) (Some [JStr "foo"]) (Resolved JNull)
            (_mountMethods (fun n => n) ["example_op"]
                           (route_world ["chainId"; "origin"; "id"] "post")).2).2
  = [{| via := request (route_world ["chainId"; "origin"; "id"] "post");
        verb := "post"; url := "/v1/example";
        arg := Some (as_query_or_body "post"
                       (request_as_bound
                          (default [] (Some ["chainId"; "origin"; "id"]))
                          (JNum 1) [JStr "foo"])) |}]
  /\ ((length (tail (default [] (Some ["chainId"; "origin"; "id"])))
       <= length [JStr "foo"])%nat ->
      "chain_id" ∉ tail (default [] (Some ["chainId"; "origin"; "id"])) ->
      request_as_bound (default [] (Some ["chainId"; "origin"; "id"])) (JNum 1)
                       [JStr "foo"]
      = bound_request (default [] (Some ["chainId"; "origin"; "id"])) (JNum 1)
                      [JStr "foo"])
  /\ request_as_bound ["chainId"; "origin"; "id"] (JNum 1)
                      [JStr "foo"; JStr "bar"]
     = list_to_map [("origin", JStr "foo"); ("id", JStr "bar");
                    ("chain_id", JNum 1)]
  /\ bound_request ["chainId"; "origin"; "id"] (JNum 1) [JStr "foo"; JStr "bar"]
     = list_to_map [("origin", JStr "foo"); ("id", JStr "bar");
                    ("chain_id", JNum 1)].
Proof.
  apply (C4_dynamic_binding (fun n => n) "example_op"
           {| path := "/v1/example"; method := "post";
              params := Some ["chainId"; "origin"; "id"] |}
           {| host := "https://example.test";
              config := {["example_op" :=
                           {| path := "/v1/example"; method := "post";
                              params := Some ["chainId"; "origin"; "id"] |}]} |}
           (route_world ["chainId"; "origin"; "id"] "post") (JNum 1)
           [JStr "foo"] (Resolved JNull)).
  - reflexivity.
  - vm_compute. reflexivity.
Defined.

Lemma reqData_built rest chain args :
  is_Some args \/ rest = [] ->
  exists req, reqData rest chain args = inr req.
Proof.
  intros [[xs ->]| ->]; [apply reqData_given|].
  unfold reqData. simpl. eauto.
Qed.

(** C6. A dynamically mounted method that is given its extra arguments (or
    has no name to bind) resolves, for every reply body, to the [result]
    field of that body: to [v] when the body is an object that holds [v]
    under [result], and to [undefined], without rejecting, when the body is
    an object without [result], or [undefined], or [null], or no object at
    all. *)
Theorem C6_result_unwrapped :
  forall (w : World) (name : string) (closure : Mounted) (chain : JsVal)
         (args : option (list JsVal)) (fields : gmap string JsVal) (v : JsVal),
    mounted w !! name = Some closure ->
    is_Some args \/ m_rest closure = [] ->
    fields !! "result" = Some v ->
    (call_mounted name chain args (Resolved (JObj fields)) w).1 = Resolved v
    /\ (forall other : gmap string JsVal,
          other !! "result" = None ->
          (call_mounted name chain args (Resolved (JObj other)) w).1
          = Resolved JUndefined)
    /\ (call_mounted name chain args (Resolved JUndefined) w).1
       = Resolved JUndefined
    /\ (call_mounted name chain args (Resolved JNull) w).1 = Resolved JUndefined
    /\ (forall body,
          (forall o, body <> JObj o) ->
          (call_mounted name chain args (Resolved body) w).1
          = Resolved JUndefined)
    /\ (forall body,
          exists r, (call_mounted name chain args (Resolved body) w).1
                    = Resolved r).
Proof.
  intros w name closure chain args fields v Hm Hargs Hv.
  destruct (reqData_built (m_rest closure) chain args Hargs) as [req Hreq].
  assert (Hcall : forall body,
             (call_mounted name chain args (Resolved body) w).1
             = Resolved (optional_get body "result")).
  { intros body. unfold call_mounted. rewrite Hm.
    now destruct (dynamic_call_built closure chain args (Resolved body) req w
                    Hreq) as [-> _]. }
  repeat split.
  - rewrite Hcall. simpl. now rewrite Hv.
  - intros other Hother. rewrite Hcall. simpl. now rewrite Hother.
  - now rewrite Hcall.
  - now rewrite Hcall.
  - intros body Hbody. rewrite Hcall.
    destruct body as [| | | | | |o]; try reflexivity.
    now destruct (Hbody o).
  - intros body. rewrite Hcall. eauto.
Qed.

Lemma C6_witness :
  (call_mounted "eth_call" (JStr "1") (Some [JArr [JStr "0x"]])
     (Resolved (JObj (list_to_map [("result", JStr "0x10"); ("id", JNum 1)])))
     (started (fun n => n))).1
  = Resolved (JStr "0x10")
  /\ (forall other : gmap string JsVal,
        other !! "result" = None ->
        (call_mounted "eth_call" (JStr "1") (Some [JArr [JStr "0x"]])
           (Resolved (JObj other)) (started (fun n => n))).1
        = Resolved JUndefined)
  /\ (call_mounted "eth_call" (JStr "1") (Some [JArr [JStr "0x"]])
        (Resolved JUndefined) (started (fun n => n))).1
     = Resolved JUndefined
  /\ (call_mounted "eth_call" (JStr "1") (Some [JArr [JStr "0x"]])
        (Resolved JNull) (started (fun n => n))).1 = Resolved JUndefined
  /\ (forall body,
        (forall o, body <> JObj o) ->
        (call_mounted "eth_call" (JStr "1") (Some [JArr [JStr "0x"]])
           (Resolved body) (started (fun n => n))).1
        = Resolved JUndefined)
  /\ (forall body,
        exists r, (call_mounted "eth_call" (JStr "1") (Some [JArr [JStr "0x"]])
                     (Resolved body) (started (fun n => n))).1
                  = Resolved r).
Proof.
  apply (C6_result_unwrapped (started (fun n => n)) "eth_call"
           {| m_config := entry "/v1/wallet/eth_rpc/call" "post"
                                (Some ["chainId"; "params"]);
              m_rest := ["params"] |}
           (JStr "1") (Some [JArr [JStr "0x"]])
           (list_to_map [("result", JStr "0x10"); ("id", JNum 1)])
           (JStr "0x10")).
  - vm_compute. reflexivity.
  - left. eexists. reflexivity.
  - vm_compute. reflexivity.
Defined.

(* ===================================================================== *)
(** ** Changing the host *)
(* ===================================================================== *)

Lemma setHost_unfold camel h reply w st :
  store w = Some st ->
  setHost camel h reply w
  = init camel reply
      {| store := Some {| host := h; config := config st |};
         request := request w; mounted := mounted w;
         storage := Some {| host := h; config := config st |};
         wire := wire w; console := console w |}.
Proof.
  intros Hst. unfold setHost, bind at 1, write_store. now rewrite Hst.
Qed.

Lemma run_via {T} (op : TypedOp) (reply : Outcome T) (w : World) (c : Call) :
  c ∈ issued w (run op reply w).2 -> via c = request w.
Proof.
  destruct (store w) as [st|] eqn:Hst.
  - destruct (config st !! route_key op) as [e|] eqn:He.
    + rewrite (run_found op reply w st e Hst He), issued_send.
      intros Hc. apply list_elem_of_singleton in Hc. now subst c.
    + rewrite (run_missing op reply w st Hst He). simpl.
      rewrite issued_nothing. intros Hc. inversion Hc.
  - rewrite run_unfold. unfold bind.
    rewrite (route_unloaded _ _ _ Hst). simpl.
    rewrite issued_nothing. intros Hc. inversion Hc.
Qed.

(** C5. On an initialised service, [setHost h] persists [h], rebuilds the
    transport on [h], attempts exactly one refresh of the route table, a
    [get] of [h/v1/wallet/config] through the new transport, and resolves
    whatever the outcome of that attempt; every request a typed operation
    issues afterwards goes through the transport bound to [h]. *)
Theorem C5_setHost_reinitialises :
  forall (camel : string -> string) (h : string)
         (reply : Outcome (gmap string RawConfigValue))
         (w : World) (st : OpenApiStore),
    store w = Some st ->
    (setHost camel h reply w).1 = Resolved tt
    /\ (exists st',
          storage (setHost camel h reply w).2 = Some st'
          /\ store (setHost camel h reply w).2 = Some st'
          /\ host st' = h)
    /\ request (setHost camel h reply w).2 = rateLimit (Some h) 25
    /\ issued w (setHost camel h reply w).2
       = [{| via := rateLimit (Some h) 25; verb := "get";
             url := h ++ "/v1/wallet/config"; arg := None |}]
    /\ forall (T : Type) (op : TypedOp) (next : Outcome T) (c : Call),
         c ∈ issued (setHost camel h reply w).2
                    (run op next (setHost camel h reply w).2).2 ->
         baseURL (via c) = Some h.
Proof.
  intros camel h reply w st Hst.
  rewrite (setHost_unfold camel h reply w st Hst).
  assert (Hshape : exists table ms logs,
    init camel reply
      {| store := Some {| host := h; config := config st |};
         request := request w; mounted := mounted w;
         storage := Some {| host := h; config := config st |};
         wire := wire w; console := console w |}
    = (Resolved tt,
       {| store := Some {| host := h; config := table |};
          request := rateLimit (Some h) 25; mounted := ms;
          storage := Some {| host := h; config := table |};
          wire := wire w ++ [{| via := rateLimit (Some h) 25; verb := "get";
                                url := h ++ "/v1/wallet/config"; arg := None |}];
          console := console w ++ logs |})).
  { destruct (refresh_failed_dec reply) as [Hfail|Hok].
    - destruct (init_failed camel reply
        {| store := Some {| host := h; config := config st |};
           request := request w; mounted := mounted w;
           storage := Some {| host := h; config := config st |};
           wire := wire w; console := console w |} Hfail) as [err ->].
      now exists (config st), (mounted w), [LogError "[rabby] openapi init error" err].
    - destruct reply as [payload|err]; [|now destruct Hok].
      destruct (init_done camel payload
        {| store := Some {| host := h; config := config st |};
           request := request w; mounted := mounted w;
           storage := Some {| host := h; config := config st |};
           wire := wire w; console := console w |} Hok) as (ms & logs & ->).
      now exists (omap lower_entry payload), ms, logs. }
  destruct Hshape as (table & ms & logs & ->). simpl.
  split; [reflexivity|]. split; [eexists; repeat split|].
  split; [reflexivity|]. split.
  - unfold issued. simpl. now rewrite drop_app_length.
  - intros T op next c Hc. apply run_via in Hc. now rewrite Hc.
Qed.

Lemma C5_witness :
  (setHost (fun n => n) "https://new.example" network_down
           (started (fun n => n))).1 = Resolved tt
  /\ (exists st',
        storage (setHost (fun n => n) "https://new.example" network_down
                         (started (fun n => n))).2 = Some st'
        /\ store (setHost (fun n => n) "https://new.example" network_down
                          (started (fun n => n))).2 = Some st'
        /\ host st' = "https://new.example")
  /\ request (setHost (fun n => n) "https://new.example" network_down
                      (started (fun n => n))).2
     = rateLimit (Some "https://new.example") 25
  /\ issued (started (fun n => n))
            (setHost (fun n => n) "https://new.example" network_down
                     (started (fun n => n))).2
     = [{| via := rateLimit (Some "https://new.example") 25; verb := "get";
           url := "https://new.example" ++ "/v1/wallet/config"; arg := None |}]
  /\ forall (T : Type) (op : TypedOp) (next : Outcome T) (c : Call),
       c ∈ issued (setHost (fun n => n) "https://new.example" network_down
                           (started (fun n => n))).2
                  (run op next
                       (setHost (fun n => n) "https://new.example" network_down
                                (started (fun n => n))).2).2 ->
       baseURL (via c) = Some "https://new.example".
Proof.
  apply (C5_setHost_reinitialises (fun n => n) "https://new.example"
           network_down (started (fun n => n))
           {| host := host template; config := omap lower_entry discovered |}).
  vm_compute. reflexivity.
Defined.

(* ===================================================================== *)
(** ** Mounting a name the table does not hold *)
(* ===================================================================== *)

Lemma mount_unknown camel methods name w st :
  store w = Some st -> name ∈ methods -> config st !! name = None ->
  (_mountMethods camel methods w).1
  = Rejected (TypeError "Cannot read property 'params' of undefined").
Proof.
  intros Hst Hin Hnone. revert w Hst.
  induction methods as [|first more IH]; intros w Hst; [inversion Hin|].
  cbn [_mountMethods]. unfold bind at 1.
  destruct (config st !! first) as [cfg|] eqn:He.
  - rewrite (route_found _ _ _ _ _ Hst He). unfold bind, assign_method.
    apply IH; [|exact Hst].
    apply elem_of_cons in Hin as [->|Hin]; [congruence|exact Hin].
  - now rewrite (route_missing _ _ _ _ Hst He).
Qed.

Lemma init_mount_failed camel (payload : gmap string RawConfigValue) w name :
  ~ refresh_failed (Resolved payload) ->
  name ∈ EVM_RPC_METHODS ->
  payload !! name = None ->
  console (init camel (Resolved payload) w).2
  = (console w ++ [LogError "[rabby] openapi init error"
                     (TypeError "Cannot read property 'params' of undefined")])%list.
Proof.
  intros Hok Hin Hnone. rewrite init_unfold. unfold try_catch, bind.
  rewrite (getConfig_done payload (loaded w) _ eq_refl Hok).
  match goal with |- context [_mountMethods camel EVM_RPC_METHODS ?w1] =>
    pose proof (mount_unknown camel EVM_RPC_METHODS name w1
                  {| host := host (default template (storage w));
                     config := omap lower_entry payload |} eq_refl Hin) as Hraise;
    destruct (mount_frame camel EVM_RPC_METHODS w1) as (o & ms & Hw)
  end.
  rewrite Hw in Hraise |- *. simpl in Hraise.
  rewrite Hraise; [reflexivity|].
  rewrite lookup_omap. now rewrite Hnone.
Qed.

(** C7, as stated, fails: when the served table has no entry for
    [eth_call], the mounting step raises, yet [init], which runs it, catches
    the error, logs it and resolves; the names before [eth_call] are mounted
    and the ones from [eth_call] on are not. *)
Lemma C7_counterexample :
  (_mountMethods (fun n => n) EVM_RPC_METHODS refreshed_without_eth_call).1
  = Rejected (TypeError "Cannot read property 'params' of undefined")
  /\ init (fun n => n) (Resolved discovered_without_eth_call) (fresh None)
     = (Resolved tt,
        (init (fun n => n) (Resolved discovered_without_eth_call) (fresh None)).2)
  /\ console (init (fun n => n) (Resolved discovered_without_eth_call)
                   (fresh None)).2
     = [LogError "[rabby] openapi init error"
                 (TypeError "Cannot read property 'params' of undefined")]
  /\ dom (mounted (init (fun n => n) (Resolved discovered_without_eth_call)
                        (fresh None)).2)
     = {["eth_getTransactionCount"; "eth_blockNumber"]}.
Proof.
  split; [vm_compute; reflexivity|].
  split; [vm_compute; reflexivity|].
  split; vm_compute; reflexivity.
Qed.

(** C7, amended. Mounting a list that holds a name without an entry in the
    route table raises a TypeError in [_mountMethods].  [init] catches what
    its refresh-and-mount sequence raises and always resolves; when the
    refreshed table lacks one of the names to mount, it logs that
    TypeError and goes on. *)
Theorem C7_mount_raises_init_recovers :
  forall (camel : string -> string) (methods : list string) (name : string)
         (w : World) (st : OpenApiStore),
    store w = Some st ->
    name ∈ methods ->
    config st !! name = None ->
    (_mountMethods camel methods w).1
    = Rejected (TypeError "Cannot read property 'params' of undefined")
    /\ (forall (reply : Outcome (gmap string RawConfigValue)) (w0 : World),
          (init camel reply w0).1 = Resolved tt)
    /\ (forall (payload : gmap string RawConfigValue) (missing : string)
               (w0 : World),
          ~ refresh_failed (Resolved payload) ->
          missing ∈ EVM_RPC_METHODS ->
          payload !! missing = None ->
          console (init camel (Resolved payload) w0).2
          = (console w0
             ++ [LogError "[rabby] openapi init error"
                   (TypeError "Cannot read property 'params' of undefined")])%list).
Proof.
  intros camel methods name w st Hst Hin Hnone. split; [|split].
  - now apply (mount_unknown camel methods name w st).
  - intros reply w0. apply init_resolves.
  - intros payload missing w0. apply init_mount_failed.
Qed.

Lemma C7_witness :
  (_mountMethods (fun n => n) EVM_RPC_METHODS (stranded (fun n => n))).1
  = Rejected (TypeError "Cannot read property 'params' of undefined")
  /\ (forall (reply : Outcome (gmap string RawConfigValue)) (w0 : World),
        (init (fun n => n) reply w0).1 = Resolved tt)
  /\ (forall (payload : gmap string RawConfigValue) (missing : string)
             (w0 : World),
        ~ refresh_failed (Resolved payload) ->
        missing ∈ EVM_RPC_METHODS ->
        payload !! missing = None ->
        console (init (fun n => n) (Resolved payload) w0).2
        = (console w0
           ++ [LogError "[rabby] openapi init error"
                 (TypeError "Cannot read property 'params' of undefined")])%list).
Proof.
  apply (C7_mount_raises_init_recovers (fun n => n) EVM_RPC_METHODS "eth_call"
           (stranded (fun n => n)) template).
  - reflexivity.
  - apply (bool_decide_unpack _). vm_compute. exact I.
  - vm_compute. reflexivity.
Defined.

(* ===================================================================== *)
(** ** Risk decisions *)
(* ===================================================================== *)

(** C8, as stated, fails: a reply whose decision is [pass] while its
    forbidden list is not empty comes back from [checkOrigin] as it is. *)
Lemma C8_counterexample :
  (checkOrigin "0xAbCdEF" "https://evil.example" (Resolved inconsistent_reply)
               (started (fun n => n))).1
  = Resolved inconsistent_reply
  /\ decision inconsistent_reply = pass
  /\ highest_bucket inconsistent_reply = forbidden.
Proof. split; [vm_compute; reflexivity|]. split; reflexivity. Qed.

(** C8, amended. The risk checks hand the reply of the backend to their
    caller unchanged, a rejection included: the decision and the three
    lists the caller sees are those of the reply, whatever they are. *)
Theorem C8_risk_checks_pass_through :
  forall (op : TypedOp) (reply : Outcome SecurityCheckResponse)
         (w : World) (st : OpenApiStore) (e : OpenApiConfigValue),
    risk_check op = true ->
    store w = Some st ->
    config st !! route_key op = Some e ->
    (run op reply w).1 = reply.
Proof.
  intros op reply w st e _ Hst He.
  now rewrite (run_found op reply w st e Hst He).
Qed.

Lemma C8_witness :
  (run (CheckText "0xAbCdEF" "https://evil.example" "sign me")
       (Resolved inconsistent_reply) (started (fun n => n))).1
  = Resolved inconsistent_reply.
Proof.
  apply (C8_risk_checks_pass_through
           (CheckText "0xAbCdEF" "https://evil.example" "sign me")
           (Resolved inconsistent_reply) (started (fun n => n))
           {| host := host template; config := omap lower_entry discovered |}
           (entry "/v1/wallet/check_text" "post" None)).
  - reflexivity.
  - vm_compute. reflexivity.
  - vm_compute. reflexivity.
Defined.

(* ===================================================================== *)
(** ** Declared parameter names and the typed operations *)
(* ===================================================================== *)




(* ===================================================================== *)
(** ** The model at work *)
(* ===================================================================== *)

(** The template does carry the five routes, under longer names. *)
Example template_risk_routes :
  path <$> (config template !! "check_origin_to_connect")
    = Some "/v1/wallet/security/check_origin"
  /\ path <$> (config template !! "check_text_to_sign")
      = Some "/v1/wallet/check_text"
  /\ path <$> (config template !! "check_tx_to_sign") = Some "/v1/wallet/check_tx"
  /\ path <$> (config template !! "explain_tx_to_sign")
      = Some "/v1/wallet/explain_tx"
  /\ path <$> (config template !! "explain_text_to_sign")
      = Some "/v1/wallet/api/explain_text".
Proof. repeat split; vm_compute; reflexivity. Qed.

(** A payload with one entry that cannot be lower-cased is dropped as a
    whole: the entry before the broken one is not applied either. *)
Example refresh_half_broken (camel : string -> string) :
  store (init camel (Resolved half_broken) (fresh None)).2 = Some template
  /\ console (init camel (Resolved half_broken) (fresh None)).2
     = [LogError "[rabby] openapi init error"
          (TypeError "Cannot read property 'toLowerCase' of undefined")].
Proof. split; vm_compute; reflexivity. Qed.

(** A served payload replaces the template, its methods in lower case. *)
Example refresh_discovered (camel : string -> string) :
  (config <$> store (started camel)) = Some (omap lower_entry discovered)
  /\ omap lower_entry discovered !! "check_text"
     = Some (entry "/v1/wallet/check_text" "post" None)
  /\ omap lower_entry discovered !! "check_text_to_sign" = None.
Proof. repeat split; vm_compute; reflexivity. Qed.

(** [setHost] before the first [init] raises: there is no store yet. *)
Example setHost_before_init (camel : string -> string) :
  (setHost camel "https://new.example" network_down (fresh None)).1
  = Rejected (TypeError "this.store is undefined").
Proof. reflexivity. Qed.

(** A dynamic call without [params] raises as soon as a name is to be
    bound, and goes through when there is none. *)
Example dynamic_call_without_params :
  reqData ["params"] (JStr "1") None
  = inl (TypeError "Cannot read property of undefined")
  /\ reqData [] (JStr "1") None = inr {["chain_id" := JStr "1"]}.
Proof. split; reflexivity. Qed.

(** Fewer arguments than names leave [undefined] fields, and a declared
    [chain_id] overrides the chain of the call. *)
Example dynamic_call_corner_cases :
  reqData ["origin"; "id"] (JNum 1) (Some [JStr "foo"])
  = inr (list_to_map [("chain_id", JNum 1); ("origin", JStr "foo");
                      ("id", JUndefined)])
  /\ reqData ["chain_id"] (JNum 1) (Some [JStr "foo"])
     = inr {["chain_id" := JStr "foo"]}.
Proof. split; vm_compute; reflexivity. Qed.

(** Every transport the service holds is limited to 25 requests a second. *)
Lemma transport_rate camel reply w :
  maxRPS (request (fresh (storage w))) = 25
  /\ maxRPS (request (init camel reply w).2) = 25.
Proof.
  split; [reflexivity|]. init_cases camel reply w; reflexivity.
Qed.

(* ===================================================================== *)
(** ** More on mounting *)
(* ===================================================================== *)

(** X1. Mounting a list of names is mounting its front part and then, if
    that went through, its rest: a failure in the front part leaves the
    rest untouched. *)
Theorem mountMethods_app :
  forall (camel : string -> string) (front rest : list string) (w : World),
    _mountMethods camel (front ++ rest)%list w
    = (_mountMethods camel front ;; _mountMethods camel rest) w.
Proof.
  intros camel front rest. induction front as [|name front IH]; intros w.
  - reflexivity.
  - cbn [app _mountMethods]. unfold bind.
    destruct (route name "params" w) as [[cfg|err] w1]; [|reflexivity].
    unfold assign_method. rewrite IH. reflexivity.
Qed.

Lemma mount_present camel methods w st :
  store w = Some st ->
  Forall (fun name => is_Some (config st !! name)) methods ->
  _mountMethods camel methods w
  = (Resolved tt, with_mounted (attach camel (config st) methods (mounted w)) w).
Proof.
  intros Hst Hall. revert w Hst.
  induction Hall as [|name methods [cfg Hcfg] Hall IH]; intros w Hst.
  - now destruct w.
  - cbn [_mountMethods]. unfold bind at 1.
    rewrite (route_found _ _ _ _ _ Hst Hcfg). unfold bind, assign_method.
    rewrite IH by exact Hst.
    unfold with_mounted, attach. simpl. now rewrite Hcfg.
Qed.

Lemma attach_other camel table methods before (key : string) :
  key ∉ camel <$> methods ->
  attach camel table methods before !! key = before !! key.
Proof.
  unfold attach. revert before.
  induction methods as [|name methods IH]; intros before Hkey; simpl.
  - reflexivity.
  - rewrite fmap_cons in Hkey. apply not_elem_of_cons in Hkey as [Hne Hkey].
    rewrite IH by exact Hkey.
    destruct (table !! name); [|reflexivity].
    now rewrite lookup_insert_ne.
Qed.

Lemma attach_present camel (table : gmap string OpenApiConfigValue)
    methods before name cfg :
  NoDup (camel <$> methods) ->
  name ∈ methods ->
  table !! name = Some cfg ->
  attach camel table methods before !! camel name = Some (closure_of cfg).
Proof.
  unfold attach. revert before.
  induction methods as [|first methods IH]; intros before Hnd Hin Hcfg.
  - inversion Hin.
  - rewrite fmap_cons in Hnd. apply NoDup_cons in Hnd as [Hfresh Hnd].
    apply elem_of_cons in Hin as [->|Hin]; simpl.
    + rewrite Hcfg.
      fold (attach camel table methods (<[camel first := closure_of cfg]> before)).
      rewrite attach_other by exact Hfresh. apply lookup_insert_eq.
    + now apply IH.
Qed.

(** X2. When every name of the list has an entry in the route table, and
    no two names are stored under the same property, mounting resolves,
    each name's property holds the callable built from that name's entry
    (the entry itself and its declared names without the first), the other
    properties keep what they held, and nothing else of the service
    changes. *)
Theorem mountMethods_all_present :
  forall (camel : string -> string) (methods : list string)
         (w : World) (st : OpenApiStore),
    store w = Some st ->
    Forall (fun name => is_Some (config st !! name)) methods ->
    NoDup (camel <$> methods) ->
    exists ms,
      _mountMethods camel methods w = (Resolved tt, with_mounted ms w)
      /\ (forall name cfg,
            name ∈ methods -> config st !! name = Some cfg ->
            ms !! camel name
            = Some {| m_config := cfg;
                      m_rest := tail (default [] (params cfg)) |})
      /\ (forall key, key ∉ camel <$> methods -> ms !! key = mounted w !! key).
Proof.
  intros camel methods w st Hst Hall Hnd.
  exists (attach camel (config st) methods (mounted w)).
  split; [now apply mount_present|]. split.
  - intros name cfg Hin Hcfg. now apply attach_present.
  - intros key Hkey. now apply attach_other.
Qed.

Lemma mountMethods_all_present_witness :
  exists ms,
    _mountMethods (fun n => n) EVM_RPC_METHODS (started (fun n => n))
    = (Resolved tt, with_mounted ms (started (fun n => n)))
    /\ (forall name cfg,
          name ∈ EVM_RPC_METHODS ->
          config {| host := host template;
                    config := omap lower_entry discovered |} !! name = Some cfg ->
          ms !! name
          = Some {| m_config := cfg; m_rest := tail (default [] (params cfg)) |})
    /\ (forall key, key ∉ (fun n => n) <$> EVM_RPC_METHODS ->
                    ms !! key = mounted (started (fun n => n)) !! key).
Proof.
  apply (mountMethods_all_present (fun n => n) EVM_RPC_METHODS
           (started (fun n => n))
           {| host := host template; config := omap lower_entry discovered |}).
  - vm_compute. reflexivity.
  - apply (bool_decide_unpack _). vm_compute. exact I.
  - apply (bool_decide_unpack _). vm_compute. exact I.
Defined.

(** X3. Mounting stops at the first name without an entry: the names
    before it are mounted as if they were the whole list, the call raises a
    TypeError, and the names after it are never looked at. *)
Theorem mountMethods_stops_at_unknown :
  forall (camel : string -> string) (front rest : list string) (name : string)
         (w : World) (st : OpenApiStore),
    store w = Some st ->
    Forall (fun name => is_Some (config st !! name)) front ->
    config st !! name = None ->
    _mountMethods camel (front ++ name :: rest)%list w
    = (Rejected (TypeError "Cannot read property 'params' of undefined"),
       (_mountMethods camel front w).2).
Proof.
  intros camel front rest name w st Hst Hall Hnone.
  rewrite mountMethods_app. unfold bind at 1.
  rewrite (mount_present camel front w st Hst Hall). simpl.
  cbn [_mountMethods]. unfold bind at 1.
  erewrite route_missing; [reflexivity|exact Hst|exact Hnone].
Qed.

Lemma mountMethods_stops_at_unknown_witness :
  _mountMethods (fun n => n)
    (["eth_getTransactionCount"; "eth_blockNumber"]
     ++ "eth_call" :: ["eth_estimateGas"])%list
    refreshed_without_eth_call
  = (Rejected (TypeError "Cannot read property 'params' of undefined"),
     (_mountMethods (fun n => n) ["eth_getTransactionCount"; "eth_blockNumber"]
                    refreshed_without_eth_call).2).
Proof.
  apply (mountMethods_stops_at_unknown (fun n => n)
           ["eth_getTransactionCount"; "eth_blockNumber"] ["eth_estimateGas"]
           "eth_call" refreshed_without_eth_call
           {| host := host template;
              config := omap lower_entry discovered_without_eth_call |}).
  - vm_compute. reflexivity.
  - apply (bool_decide_unpack _). vm_compute. exact I.
  - vm_compute. reflexivity.
Defined.

(** X4. A refresh that fails mounts nothing: [init] leaves the methods of
    the service object as they were, whatever the stored table holds, so on
    a service object that was just constructed every dynamic method is
    still missing and calling one raises without a request. *)
Theorem failed_refresh_mounts_nothing :
  forall (camel : string -> string)
         (reply : Outcome (gmap string RawConfigValue)) (w : World),
    refresh_failed reply ->
    mounted (init camel reply w).2 = mounted w
    /\ forall (persisted : option OpenApiStore) (name : string) (chain : JsVal)
              (args : option (list JsVal)) (answer : Outcome JsVal),
         call_mounted name chain args answer
                      (init camel reply (fresh persisted)).2
         = (Rejected (TypeError "this[name] is not a function"),
            (init camel reply (fresh persisted)).2).
Proof.
  intros camel reply w Hfail. split.
  - now destruct (init_failed camel reply w Hfail) as [err ->].
  - intros persisted name chain args answer.
    destruct (init_failed camel reply (fresh persisted) Hfail) as [err ->].
    unfold call_mounted. simpl. now rewrite lookup_empty.
Qed.

Lemma failed_refresh_mounts_nothing_witness :
  mounted (init (fun n => n) (Resolved half_broken) (started (fun n => n))).2
  = mounted (started (fun n => n))
  /\ forall (persisted : option OpenApiStore) (name : string) (chain : JsVal)
            (args : option (list JsVal)) (answer : Outcome JsVal),
       call_mounted name chain args answer
                    (init (fun n => n) (Resolved half_broken) (fresh persisted)).2
       = (Rejected (TypeError "this[name] is not a function"),
          (init (fun n => n) (Resolved half_broken) (fresh persisted)).2).
Proof.
  apply (failed_refresh_mounts_nothing (fun n => n) (Resolved half_broken)
           (started (fun n => n))).
  exists "recommend_chains",
         {| rpath := "/v2/wallet/recommend_chains"; rmethod := None;
            rparams := None |}.
  split; vm_compute; reflexivity.
Defined.

(** X5. A mounted method keeps the route entry it was built from: after a
    refresh that replaced the whole table, and until it is mounted anew,
    it still sends to the path and with the method of the old entry,
    through the transport the service holds at the time of the call. *)
Theorem mounted_method_keeps_its_entry :
  forall (w : World) (st : OpenApiStore) (name : string) (closure : Mounted)
         (payload : gmap string RawConfigValue) (chain : JsVal)
         (args : option (list JsVal)) (req : gmap string JsVal)
         (answer : Outcome JsVal),
    store w = Some st ->
    mounted w !! name = Some closure ->
    ~ refresh_failed (Resolved payload) ->
    reqData (m_rest closure) chain args = inr req ->
    (config <$> store (getConfig (Resolved payload) w).2)
    = Some (omap lower_entry payload)
    /\ issued (getConfig (Resolved payload) w).2
              (call_mounted name chain args answer
                            (getConfig (Resolved payload) w).2).2
       = [{| via := request w; verb := method (m_config closure);
             url := path (m_config closure);
             arg := Some (as_query_or_body (method (m_config closure)) req) |}].
Proof.
  intros w st name closure payload chain args req answer Hst Hm Hok Hreq.
  rewrite (getConfig_done payload w st Hst Hok). simpl.
  split; [reflexivity|].
  unfold call_mounted. simpl. rewrite Hm.
  match goal with |- context [dynamic_call closure chain args answer ?w1] =>
    destruct (dynamic_call_built closure chain args answer req w1 Hreq)
      as [_ Hissued]
  end.
  exact Hissued.
Qed.

Lemma mounted_method_keeps_its_entry_witness :
  (config <$> store (getConfig (Resolved (delete "eth_blockNumber" discovered))
                               (started (fun n => n))).2)
  = Some (omap lower_entry (delete "eth_blockNumber" discovered))
  /\ issued (getConfig (Resolved (delete "eth_blockNumber" discovered))
                       (started (fun n => n))).2
            (call_mounted "eth_blockNumber" (JStr "1") None (Resolved JNull)
               (getConfig (Resolved (delete "eth_blockNumber" discovered))
                          (started (fun n => n))).2).2
     = [{| via := request (started (fun n => n)); verb := "get";
           url := "/v1/wallet/eth_rpc/block_number";
           arg := Some (as_query_or_body "get" {["chain_id" := JStr "1"]}) |}].
Proof.
  apply (mounted_method_keeps_its_entry (started (fun n => n))
           {| host := host template; config := omap lower_entry discovered |}
           "eth_blockNumber"
           {| m_config := entry "/v1/wallet/eth_rpc/block_number" "get"
                                (Some ["chainId"]);
              m_rest := [] |}
           (delete "eth_blockNumber" discovered) (JStr "1") None
           {["chain_id" := JStr "1"]} (Resolved JNull)).
  - vm_compute. reflexivity.
  - vm_compute. reflexivity.
  - intros (key & e & He & Hno).
    assert (Hall : map_Forall (fun _ e => is_Some (rmethod e))
                              (delete "eth_blockNumber" discovered))
      by (apply (bool_decide_unpack _); vm_compute; exact I).
    destruct (Hall key e He) as [m Hm]. congruence.
  - vm_compute. reflexivity.
Defined.

(* ===================================================================== *)
(** ** More on the request of a dynamic call *)
(* ===================================================================== *)

Lemma reduce_params_dom (rest : list string) (i : nat) (xs : list JsVal)
    (m m' : gmap string JsVal) :
  reduce_params rest i (Some xs) m = inr m' ->
  dom m' = dom m ∪ list_to_set rest.
Proof.
  revert i m. induction rest as [|n rest IH]; intros i m; simpl.
  - intros [= <-]. simpl. now rewrite (right_id_L ∅ (∪)).
  - intros Hred. rewrite (IH _ _ Hred), dom_insert_L. simpl.
    now rewrite (comm_L (∪) {[n]} (dom m)), <- (assoc_L (∪)).
Qed.

Lemma reduce_params_other (rest : list string) (i : nat) (xs : list JsVal)
    (m m' : gmap string JsVal) (key : string) :
  reduce_params rest i (Some xs) m = inr m' ->
  key ∉ rest -> m' !! key = m !! key.
Proof.
  revert i m. induction rest as [|n rest IH]; intros i m; simpl.
  - now intros [= <-].
  - intros Hred Hkey. apply not_elem_of_cons in Hkey as [Hne Hkey].
    rewrite (IH _ _ Hred Hkey). now rewrite lookup_insert_ne.
Qed.

Lemma reduce_params_last (rest : list string) (i k : nat) (xs : list JsVal)
    (m m' : gmap string JsVal) (n : string) :
  reduce_params rest i (Some xs) m = inr m' ->
  rest !! k = Some n ->
  n ∉ drop (S k) rest ->
  m' !! n = Some (index xs (i + k)).
Proof.
  revert i k m. induction rest as [|n0 rest IH]; intros i k m; simpl.
  - intros _ Hk. inversion Hk.
  - intros Hred Hk Hlast. destruct k as [|k]; simpl in Hk, Hlast.
    + injection Hk as ->. rewrite drop_0 in Hlast.
      rewrite (reduce_params_other _ _ _ _ _ _ Hred Hlast).
      rewrite lookup_insert_eq. now rewrite Nat.add_0_r.
    + rewrite (IH _ _ _ Hred Hk Hlast). f_equal. f_equal. lia.
Qed.

(** X6. The request of a dynamic call that is given its arguments always
    has one field per declared name after the first, and [chain_id], and
    no other field, however many arguments were passed. *)
Theorem reqData_fields :
  forall (rest : list string) (chain : JsVal) (xs : list JsVal),
    exists req,
      reqData rest chain (Some xs) = inr req
      /\ dom req = {["chain_id"]} ∪ list_to_set rest.
Proof.
  intros rest chain xs. unfold reqData.
  destruct (reduce_params_given rest 0 xs ∅) as [m Hm]. rewrite Hm.
  eexists. split; [reflexivity|].
  unfold spread. rewrite dom_union_L, (reduce_params_dom _ _ _ _ _ Hm).
  rewrite dom_singleton_L, dom_empty_L, (left_id_L ∅ (∪)).
  apply (comm_L (∪)).
Qed.

(** X7. The field of a declared name holds the argument at the position of
    the name's last occurrence after the first declared name, [undefined]
    when fewer arguments were passed; this holds for a name [chain_id] too,
    whose argument then replaces the chain of the call.  When [chain_id] is
    not declared, the field carries the chain. *)
Theorem reqData_by_position :
  forall (rest : list string) (chain : JsVal) (xs : list JsVal)
         (req : gmap string JsVal) (k : nat) (n : string),
    reqData rest chain (Some xs) = inr req ->
    rest !! k = Some n ->
    n ∉ drop (S k) rest ->
    req !! n = Some (default JUndefined (xs !! k))
    /\ ("chain_id" ∉ rest -> req !! "chain_id" = Some chain).
Proof.
  intros rest chain xs req k n Hreq Hk Hlast. unfold reqData in Hreq.
  destruct (reduce_params rest 0 (Some xs) ∅) as [err|m] eqn:Hm;
    [discriminate|].
  injection Hreq as <-. unfold spread. split.
  - apply lookup_union_Some_l.
    now rewrite (reduce_params_last _ 0 k _ _ _ _ Hm Hk Hlast).
  - intros Hfree. rewrite lookup_union_r.
    + apply lookup_singleton_eq.
    + rewrite (reduce_params_other _ _ _ _ _ _ Hm Hfree). apply lookup_empty.
Qed.

Lemma reqData_by_position_witness :
  (list_to_map [("chain_id", JNum 1); ("origin", JStr "bar");
                ("id", JUndefined)] : gmap string JsVal) !! "origin"
  = Some (default JUndefined ([JStr "foo"; JStr "bar"] !! 1%nat))
  /\ ("chain_id" ∉ ["origin"; "origin"; "id"] ->
      (list_to_map [("chain_id", JNum 1); ("origin", JStr "bar");
                    ("id", JUndefined)] : gmap string JsVal) !! "chain_id"
      = Some (JNum 1)).
Proof.
  apply (reqData_by_position ["origin"; "origin"; "id"] (JNum 1)
           [JStr "foo"; JStr "bar"]
           (list_to_map [("chain_id", JNum 1); ("origin", JStr "bar");
                         ("id", JUndefined)]) 1 "origin").
  - vm_compute. reflexivity.
  - reflexivity.
  - apply (bool_decide_unpack _). vm_compute. exact I.
Defined.

Lemma reduce_params_more_args (rest : list string) (i : nat)
    (xs extra : list JsVal) (m : gmap string JsVal) :
  (length rest + i <= length xs)%nat ->
  reduce_params rest i (Some (xs ++ extra)%list) m
  = reduce_params rest i (Some xs) m.
Proof.
  revert i m. induction rest as [|n rest IH]; intros i m Hlen; simpl.
  - reflexivity.
  - simpl in Hlen. unfold index.
    rewrite lookup_app_l by lia. apply IH. lia.
Qed.

(** X8. Arguments beyond the declared names are ignored: a call that
    passes more extra arguments than there are names after the first sends
    the same request as the call without the surplus. *)
Theorem reqData_surplus_ignored :
  forall (rest : list string) (chain : JsVal) (xs extra : list JsVal),
    (length rest <= length xs)%nat ->
    reqData rest chain (Some (xs ++ extra)%list) = reqData rest chain (Some xs).
Proof.
  intros rest chain xs extra Hlen. unfold reqData.
  rewrite reduce_params_more_args by lia. reflexivity.
Qed.

Lemma reqData_surplus_ignored_witness :
  reqData ["params"] (JStr "1") (Some ([JArr []] ++ [JStr "latest"; JNull])%list)
  = reqData ["params"] (JStr "1") (Some [JArr []]).
Proof.
  apply (reqData_surplus_ignored ["params"] (JStr "1") [JArr []]
           [JStr "latest"; JNull]).
  simpl. lia.
Defined.

(** X9. A dynamic call writes its arguments to the console exactly when
    the method of its route is [post]; with any other method a call that
    goes out logs nothing. *)
Theorem dynamic_call_logs_post_params :
  forall (closure : Mounted) (chain : JsVal) (args : option (list JsVal))
         (req : gmap string JsVal) (answer : Outcome JsVal) (w : World),
    reqData (m_rest closure) chain args = inr req ->
    console (dynamic_call closure chain args answer w).2
    = (console w
       ++ (if bool_decide (method (m_config closure) = "post")
           then [LogParams args] else []))%list.
Proof.
  intros closure chain args req answer w Hreq.
  unfold dynamic_call, bind at 1. rewrite Hreq. simpl. unfold bind at 1.
  case_bool_decide; simpl; unfold bind, send; simpl;
    destruct answer; simpl; now rewrite ?app_nil_r.
Qed.

Lemma dynamic_call_logs_post_params_witness :
  console (dynamic_call
             {| m_config := entry "/v1/wallet/eth_rpc/call" "post"
                                  (Some ["chainId"; "params"]);
                m_rest := ["params"] |}
             (JStr "1") (Some [JStr "secret"]) (Resolved JNull)
             (fresh None)).2
  = (console (fresh None)
     ++ (if bool_decide ("post" = "post")
         then [LogParams (Some [JStr "secret"])] else []))%list.
Proof.
  apply (dynamic_call_logs_post_params
           {| m_config := entry "/v1/wallet/eth_rpc/call" "post"
                                (Some ["chainId"; "params"]);
              m_rest := ["params"] |}
           (JStr "1") (Some [JStr "secret"])
           (list_to_map [("chain_id", JStr "1"); ("params", JStr "secret")])).
  vm_compute. reflexivity.
Defined.

(** X10. A dynamic call that omits its arguments on a route with a name to
    bind fails before it does anything: it raises a TypeError, sends no
    request and logs nothing.  On a route without a name to bind the same
    call goes out with [chain_id] alone. *)
Theorem dynamic_call_without_args :
  forall (closure : Mounted) (chain : JsVal) (answer : Outcome JsVal)
         (w : World),
    (m_rest closure <> [] ->
     dynamic_call closure chain None answer w
     = (Rejected (TypeError "Cannot read property of undefined"), w))
    /\ (m_rest closure = [] ->
        (dynamic_call closure chain None answer w).1 = unwrapped answer
        /\ issued w (dynamic_call closure chain None answer w).2
           = [{| via := request w; verb := method (m_config closure);
                 url := path (m_config closure);
                 arg := Some (as_query_or_body (method (m_config closure))
                                {["chain_id" := chain]}) |}]).
Proof.
  intros closure chain answer w. split.
  - intros Hrest. unfold dynamic_call, bind at 1, reqData.
    destruct (m_rest closure) as [|n rest]; [congruence|]. reflexivity.
  - intros Hrest.
    apply (dynamic_call_built closure chain None answer {["chain_id" := chain]} w).
    rewrite Hrest. reflexivity.
Qed.

(* ===================================================================== *)
(** ** More on the typed operations *)
(* ===================================================================== *)

(** X11. When the entry under the operation's key, if there is one, has
    the method [get] or [post] (the two the bundled template uses), a typed
    operation sends a request exactly when the service is initialised and
    the route table holds the key, and then it sends exactly one, with the
    path and the method of that entry, and settles as the request settles;
    otherwise it raises a TypeError and sends nothing. *)
Theorem typed_operation_request :
  forall (T : Type) (op : TypedOp) (reply : Outcome T) (w : World),
    (forall st e,
        store w = Some st -> config st !! route_key op = Some e ->
        method e = "get" \/ method e = "post") ->
    (exists st e,
        store w = Some st /\ config st !! route_key op = Some e
        /\ (method e = "get" \/ method e = "post")
        /\ (run op reply w).1 = reply
        /\ issued w (run op reply w).2
           = [{| via := request w; verb := method e; url := path e;
                 arg := request_arg op |}])
    \/ ((forall st, store w = Some st -> config st !! route_key op = None)
        /\ (exists what, (run op reply w).1 = Rejected (TypeError what))
        /\ issued w (run op reply w).2 = []).
Proof.
  intros T op reply w Hverb.
  destruct (store w) as [st|] eqn:Hst.
  - destruct (config st !! route_key op) as [e|] eqn:He.
    + left. exists st, e. rewrite (run_found op reply w st e Hst He).
      rewrite issued_send. split; [reflexivity|]. split; [exact He|].
      split; [exact (Hverb st e eq_refl He)|]. now split.
    + right. rewrite (run_missing op reply w st Hst He). simpl.
      rewrite issued_nothing. split; [|split; eauto].
      intros st' [= <-]. exact He.
  - right. rewrite run_unfold. unfold bind.
    rewrite (route_unloaded _ _ _ Hst). simpl. rewrite issued_nothing.
    split; [|split; eauto]. intros st' Hst'. discriminate.
Qed.

Lemma typed_operation_request_witness :
  (exists st e,
      store (stranded (fun n => n)) = Some st
      /\ config st !! route_key (GetTotalBalance "0xAbCd") = Some e
      /\ (method e = "get" \/ method e = "post")
      /\ (run (GetTotalBalance "0xAbCd") (Resolved JNull)
              (stranded (fun n => n))).1 = Resolved JNull
      /\ issued (stranded (fun n => n))
                (run (GetTotalBalance "0xAbCd") (Resolved JNull)
                     (stranded (fun n => n))).2
         = [{| via := request (stranded (fun n => n)); verb := method e;
               url := path e;
               arg := request_arg (GetTotalBalance "0xAbCd") |}])
  \/ ((forall st,
         store (stranded (fun n => n)) = Some st ->
         config st !! route_key (GetTotalBalance "0xAbCd") = None)
      /\ (exists what,
             (run (GetTotalBalance "0xAbCd") (Resolved JNull)
                  (stranded (fun n => n))).1 = Rejected (TypeError what))
      /\ issued (stranded (fun n => n))
                (run (GetTotalBalance "0xAbCd") (Resolved JNull)
                     (stranded (fun n => n))).2 = []).
Proof.
  apply (typed_operation_request JsVal (GetTotalBalance "0xAbCd")
           (Resolved JNull) (stranded (fun n => n))).
  intros st e Hst He. injection Hst as <-.
  vm_compute in He. injection He as <-. left. reflexivity.
Defined.

(** X12. No typed operation changes the service: the store, the persisted
    record, the transport, the mounted methods and the console are after
    the call what they were before, and the requests sent before the call
    are still there, in order, before what the call sent. *)
Theorem typed_operation_frame :
  forall (T : Type) (op : TypedOp) (reply : Outcome T) (w : World),
    store (run op reply w).2 = store w
    /\ storage (run op reply w).2 = storage w
    /\ request (run op reply w).2 = request w
    /\ mounted (run op reply w).2 = mounted w
    /\ console (run op reply w).2 = console w
    /\ wire (run op reply w).2 = (wire w ++ issued w (run op reply w).2)%list.
Proof.
  intros T op reply w. rewrite run_unfold. unfold bind, route, bind, this_store.
  destruct (store w) as [st|] eqn:Hst; simpl.
  - destruct (config st !! route_key op) as [e|]; simpl.
    + unfold issued. simpl. rewrite drop_app_length. now repeat split.
    + rewrite issued_nothing, app_nil_r. now repeat split.
  - rewrite issued_nothing, app_nil_r. now repeat split.
Qed.

(* ===================================================================== *)
(** ** More on the refresh *)
(* ===================================================================== *)

(** X13. After a refresh that went through, every method in the route
    table is in lower case, however the backend spelled it. *)
Theorem refreshed_methods_lower_cased :
  forall (reply : Outcome (gmap string RawConfigValue)) (w : World)
         (st' : OpenApiStore) (key : string) (e : OpenApiConfigValue),
    (getConfig reply w).1 = Resolved tt ->
    store (getConfig reply w).2 = Some st' ->
    config st' !! key = Some e ->
    is_lower_cased (method e) = true.
Proof.
  intros reply w st' key e Hdone Hst' He.
  destruct (store w) as [st|] eqn:Hst.
  - destruct (refresh_failed_dec reply) as [Hfail|Hok].
    + destruct (getConfig_failed reply w st Hst Hfail) as [err Herr].
      rewrite Herr in Hdone. discriminate.
    + destruct reply as [payload|err]; [|now destruct Hok].
      rewrite (getConfig_done payload w st Hst Hok) in Hst'. simpl in Hst'.
      injection Hst' as <-. simpl in He.
      rewrite lookup_omap in He.
      destruct (payload !! key) as [r0|]; [|discriminate]. simpl in He.
      unfold lower_entry in He. destruct (rmethod r0) as [m|]; [|discriminate].
      injection He as <-. apply toLowerCase_lower_cased.
  - unfold getConfig, bind, this_store in Hdone. rewrite Hst in Hdone.
    discriminate.
Qed.

Lemma refreshed_methods_lower_cased_witness :
  is_lower_cased (method (entry "/v1/wallet/check_text" "post" None)) = true.
Proof.
  apply (refreshed_methods_lower_cased (Resolved discovered)
           (loaded (fresh None))
           {| host := host template; config := omap lower_entry discovered |}
           "check_text" (entry "/v1/wallet/check_text" "post" None)).
  - vm_compute. reflexivity.
  - vm_compute. reflexivity.
  - vm_compute. reflexivity.
Defined.

Lemma lower_entry_ignoring_case (e1 e2 : RawConfigValue) :
  same_entry_ignoring_case e1 e2 -> lower_entry e1 = lower_entry e2.
Proof.
  intros (Hp & Hps & Hm). unfold lower_entry.
  destruct (rmethod e1) as [m1|], (rmethod e2) as [m2|]; try easy.
  simpl. now rewrite Hp, Hps, (toLowerCase_same_ignoring_case _ _ Hm).
Qed.

Lemma lower_methods_ignoring_case (p1 p2 : gmap string RawConfigValue) :
  same_payload_ignoring_case p1 p2 -> lower_methods p1 = lower_methods p2.
Proof.
  intros Hsame.
  assert (Hentry : forall key, p1 !! key ≫= lower_entry = p2 !! key ≫= lower_entry).
  { intros key. specialize (Hsame key).
    destruct (p1 !! key) as [e1|], (p2 !! key) as [e2|]; try easy.
    simpl. now apply lower_entry_ignoring_case. }
  assert (Hmap : omap lower_entry p1 = omap lower_entry p2).
  { apply map_eq. intros key. rewrite !lookup_omap. apply Hentry. }
  assert (Hall : forall (p q : gmap string RawConfigValue),
             (forall key, p !! key ≫= lower_entry = q !! key ≫= lower_entry) ->
             (forall key, match p !! key, q !! key with
                          | Some _, Some _ | None, None => True
                          | _, _ => False
                          end) ->
             map_Forall (fun _ e => is_Some (lower_entry e)) p ->
             map_Forall (fun _ e => is_Some (lower_entry e)) q).
  { intros p q Heq Hkeys Hp key e He. simpl.
    specialize (Heq key). specialize (Hkeys key). rewrite He in Heq, Hkeys.
    destruct (p !! key) as [e'|] eqn:He'; [|easy].
    specialize (Hp key e' He'). simpl in Hp, Heq.
    rewrite <- Heq. exact Hp. }
  unfold lower_methods. rewrite Hmap.
  case_bool_decide as H1; case_bool_decide as H2; try reflexivity; exfalso.
  - apply H2. apply (Hall p1 p2); [exact Hentry| |exact H1].
    intros key. specialize (Hsame key).
    now destruct (p1 !! key), (p2 !! key).
  - apply H1. apply (Hall p2 p1); [now intros key; rewrite Hentry| |exact H2].
    intros key. specialize (Hsame key).
    now destruct (p1 !! key), (p2 !! key).
Qed.

(** X14. The letter case in which the backend spells the methods of the
    discovery document makes no difference: two documents that differ only
    there lead [getConfig] to the same outcome and the same service. *)
Theorem refresh_ignores_method_case :
  forall (p1 p2 : gmap string RawConfigValue) (w : World),
    same_payload_ignoring_case p1 p2 ->
    getConfig (Resolved p1) w = getConfig (Resolved p2) w.
Proof.
  intros p1 p2 w Hsame. unfold getConfig, bind, this_store.
  destruct (store w) as [st|]; [|reflexivity]. simpl.
  now rewrite (lower_methods_ignoring_case p1 p2 Hsame).
Qed.

Lemma refresh_ignores_method_case_witness :
  getConfig (Resolved {["eth_call" := raw "/v1/wallet/eth_rpc/call" "POST" None]})
            (loaded (fresh None))
  = getConfig (Resolved {["eth_call" := raw "/v1/wallet/eth_rpc/call" "Post" None]})
              (loaded (fresh None)).
Proof.
  apply (refresh_ignores_method_case
           {["eth_call" := raw "/v1/wallet/eth_rpc/call" "POST" None]}
           {["eth_call" := raw "/v1/wallet/eth_rpc/call" "Post" None]}
           (loaded (fresh None))).
  intros key. destruct (decide (key = "eth_call")) as [->|Hne].
  - vm_compute. repeat split.
  - now rewrite !lookup_singleton_ne.
Defined.

(* ===================================================================== *)
(** ** The address management page *)
(* ===================================================================== *)

Module AddressManagementFacts.
Import AddressManagement.

Lemma is_other_negb keyring account item :
  is_other keyring account item = negb (is_item keyring account item).
Proof. unfold is_other, is_item. now rewrite negb_andb. Qed.

Lemma is_item_eq keyring account item :
  is_item keyring account item = true
  <-> item = {| type := keyring; address := account |}.
Proof.
  unfold is_item. rewrite andb_true_iff, !bool_decide_eq_true.
  destruct item as [t a]; simpl. split.
  - now intros [-> ->].
  - now intros [= -> ->].
Qed.

Lemma found_false_filter (hidden : list HiddenAddress) keyring account :
  found hidden keyring account = false ->
  List.filter (is_other keyring account) hidden = hidden.
Proof.
  unfold found. induction hidden as [|item hidden IH]; simpl; [reflexivity|].
  rewrite is_other_negb.
  destruct (is_item keyring account item); simpl; [discriminate|].
  intros Hrest. now rewrite IH.
Qed.

Lemma found_filter_same (hidden : list HiddenAddress) keyring account :
  found (List.filter (is_other keyring account) hidden) keyring account = false.
Proof.
  unfold found. induction hidden as [|item hidden IH]; simpl; [reflexivity|].
  rewrite is_other_negb.
  destruct (is_item keyring account item) eqn:Hitem; simpl; [exact IH|].
  now rewrite Hitem.
Qed.

Lemma found_filter_other (hidden : list HiddenAddress) keyring account k a :
  (k, a) <> (keyring, account) ->
  found (List.filter (is_other keyring account) hidden) k a = found hidden k a.
Proof.
  intros Hne. unfold found.
  induction hidden as [|item hidden IH]; simpl; [reflexivity|].
  rewrite is_other_negb.
  destruct (is_item keyring account item) eqn:Hitem; simpl.
  - apply is_item_eq in Hitem. subst item.
    destruct (is_item k a {| type := keyring; address := account |}) eqn:Hka.
    + apply is_item_eq in Hka. injection Hka as <- <-. now destruct Hne.
    + exact IH.
  - destruct (is_item k a item); [reflexivity|exact IH].
Qed.

Lemma find_append (f : HiddenAddress -> bool) (l1 l2 : list HiddenAddress) :
  List.find f (l1 ++ l2)%list
  = match List.find f l1 with
    | Some item => Some item
    | None => List.find f l2
    end.
Proof.
  induction l1 as [|item l1 IH]; simpl; [reflexivity|].
  now destruct (f item).
Qed.

Lemma filter_length_le (f : HiddenAddress -> bool) (hidden : list HiddenAddress) :
  (length (List.filter f hidden) <= length hidden)%nat.
Proof.
  induction hidden as [|item hidden IH]; simpl; [lia|].
  destruct (f item); simpl; lia.
Qed.

(** X15. Toggling never hides the last visible address: an address is
    hidden only if, with it, at most [totalCount - 1] addresses are hidden;
    at the limit the page keeps its list, tells the user and does not ask
    the wallet to hide anything; and a list within the limit stays within
    it under every toggle. *)
Theorem toggle_keeps_one_visible :
  forall (hidden : list HiddenAddress) (keyring account : string) (total : Z),
    (HideAddress keyring account
       ∈ (handleToggleAddressVisible hidden keyring account (Some total)).2 ->
     found hidden keyring account = false
     /\ (handleToggleAddressVisible hidden keyring account (Some total)).1
        = (hidden ++ [{| type := keyring; address := account |}])%list
     /\ (Z.of_nat (length (handleToggleAddressVisible hidden keyring account
                                                     (Some total)).1)
         <= total - 1)%Z)
    /\ (found hidden keyring account = false ->
        (Z.of_nat (length hidden) >= total - 1)%Z ->
        handleToggleAddressVisible hidden keyring account (Some total)
        = (hidden, [GetAccountsCount;
                    MessageError "Keep at least one address visible."]))
    /\ ((Z.of_nat (length hidden) <= total - 1)%Z ->
        (Z.of_nat (length (handleToggleAddressVisible hidden keyring account
                                                    (Some total)).1)
         <= total - 1)%Z).
Proof.
  intros hidden keyring account total. unfold handleToggleAddressVisible.
  destruct (found hidden keyring account) eqn:Hfound; simpl.
  - split; [|split].
    + intros Hin. apply list_elem_of_singleton in Hin. discriminate.
    + discriminate.
    + pose proof (filter_length_le (is_other keyring account) hidden). lia.
  - destruct (Z.geb_spec (Z.of_nat (length hidden)) (total - 1)) as [Hge|Hlt];
      simpl.
    + split; [|split].
      * intros Hin. apply elem_of_cons in Hin as [Hin|Hin]; [discriminate|].
        apply list_elem_of_singleton in Hin. discriminate.
      * reflexivity.
      * trivial.
    + split; [|split].
      * intros _. split; [reflexivity|]. split; [reflexivity|].
        rewrite length_app. simpl. lia.
      * lia.
      * intros _. rewrite length_app. simpl. lia.
Qed.

(** X16. Hiding an address that was not hidden and then toggling it again
    gives back the list the page started from, whatever the wallet answers
    the second time. *)
Theorem toggle_twice_restores :
  forall (hidden : list HiddenAddress) (keyring account : string)
         (total : Z) (again : option Z),
    found hidden keyring account = false ->
    (Z.of_nat (length hidden) < total - 1)%Z ->
    handleToggleAddressVisible
      (handleToggleAddressVisible hidden keyring account (Some total)).1
      keyring account again
    = (hidden, [ShowAddress keyring account]).
Proof.
  intros hidden keyring account total again Hfound Hroom.
  unfold handleToggleAddressVisible at 2. rewrite Hfound.
  destruct (Z.geb_spec (Z.of_nat (length hidden)) (total - 1)) as [Hge|_];
    [lia|]. simpl.
  unfold handleToggleAddressVisible.
  assert (Hnow : found (hidden ++ [{| type := keyring; address := account |}])
                       keyring account = true).
  { unfold found in *. rewrite find_append.
    destruct (List.find (is_item keyring account) hidden); [reflexivity|].
    simpl. assert (His : is_item keyring account
                           {| type := keyring; address := account |} = true)
      by now apply is_item_eq.
    now rewrite His. }
  rewrite Hnow. f_equal.
  rewrite List.filter_app, (found_false_filter _ _ _ Hfound). simpl.
  rewrite is_other_negb.
  assert (His : is_item keyring account
                  {| type := keyring; address := account |} = true)
    by now apply is_item_eq.
  rewrite His. simpl. apply app_nil_r.
Qed.

Lemma toggle_twice_restores_witness :
  handleToggleAddressVisible
    (handleToggleAddressVisible sample_hidden "HD Key Tree" "0xbb" (Some 3)).1
    "HD Key Tree" "0xbb" None
  = (sample_hidden, [ShowAddress "HD Key Tree" "0xbb"]).
Proof.
  apply (toggle_twice_restores sample_hidden "HD Key Tree" "0xbb" 3 None).
  - reflexivity.
  - simpl. lia.
Defined.

(** X17. Showing a hidden address removes every entry of it from the list,
    asks the wallet once to show it and nothing else, and changes for no
    other address whether it is hidden. *)
Theorem toggle_shows_hidden :
  forall (hidden : list HiddenAddress) (keyring account : string)
         (count : option Z),
    found hidden keyring account = true ->
    (handleToggleAddressVisible hidden keyring account count).2
    = [ShowAddress keyring account]
    /\ found (handleToggleAddressVisible hidden keyring account count).1
             keyring account = false
    /\ forall k a,
         (k, a) <> (keyring, account) ->
         found (handleToggleAddressVisible hidden keyring account count).1 k a
         = found hidden k a.
Proof.
  intros hidden keyring account count Hfound.
  unfold handleToggleAddressVisible. rewrite Hfound. simpl.
  split; [reflexivity|]. split.
  - apply found_filter_same.
  - intros k a Hne. now apply found_filter_other.
Qed.

Lemma toggle_shows_hidden_witness :
  (handleToggleAddressVisible
     (sample_hidden ++ sample_hidden)%list "HD Key Tree" "0xaa" None).2
  = [ShowAddress "HD Key Tree" "0xaa"]
  /\ found (handleToggleAddressVisible
              (sample_hidden ++ sample_hidden)%list "HD Key Tree" "0xaa" None).1
           "HD Key Tree" "0xaa" = false
  /\ forall k a,
       (k, a) <> ("HD Key Tree", "0xaa") ->
       found (handleToggleAddressVisible
                (sample_hidden ++ sample_hidden)%list "HD Key Tree" "0xaa" None).1
             k a
       = found (sample_hidden ++ sample_hidden)%list k a.
Proof.
  apply (toggle_shows_hidden (sample_hidden ++ sample_hidden)%list
           "HD Key Tree" "0xaa" None).
  reflexivity.
Defined.

(** X18. The menu offers the private key exactly for the HD and the simple
    keyrings, and deletion only for a hardware or watch keyring that is
    neither of those; no menu offers both, the visibility item comes only
    together with the private key, and a keyring type the page does not
    know gets an empty menu. *)
Theorem menu_by_keyring_type :
  forall (consts : Consts) (hidden : list HiddenAddress)
         (keyring account : string),
    (ViewPrivateKey ∈ DropdownOptions consts hidden keyring account
     <-> keyring = HdKeyring consts \/ keyring = SimpleKeyring consts)
    /\ (DeleteAddress ∈ DropdownOptions consts hidden keyring account
        <-> (keyring = Ledger consts \/ keyring = Trezor consts
             \/ keyring = Onekey consts
             \/ keyring = WatchAddressKeyring consts)
            /\ keyring <> HdKeyring consts
            /\ keyring <> SimpleKeyring consts)
    /\ (forall label,
          ToggleVisible label ∈ DropdownOptions consts hidden keyring account ->
          ViewPrivateKey ∈ DropdownOptions consts hidden keyring account)
    /\ (DropdownOptions consts hidden keyring account = []
        <-> keyring <> HdKeyring consts /\ keyring <> SimpleKeyring consts
            /\ keyring <> Ledger consts /\ keyring <> Trezor consts
            /\ keyring <> Onekey consts
            /\ keyring <> WatchAddressKeyring consts).
Proof.
  intros consts hidden keyring account. unfold DropdownOptions.
  repeat case_bool_decide; simpl;
    repeat split; intros;
    repeat match goal with
    | H : _ ∈ [] |- _ => inversion H
    | H : _ ∈ _ :: _ |- _ => apply elem_of_cons in H as [H|H]; try discriminate
    | H : _ /\ _ |- _ => destruct H
    | H : _ \/ _ |- _ => destruct H
    | |- _ ∈ _ => repeat constructor
    end;
    try congruence; try discriminate; try tauto; eauto 6.
Qed.

(** X19. The label of the visibility item, the [Hidden] badge and the
    action of the toggle agree: the label reads "Show address" and the
    badge is shown exactly when the address is in the list of hidden
    addresses, and exactly then the toggle asks the wallet to show it. *)
Theorem label_badge_and_toggle_agree :
  forall (consts : Consts) (hidden : list HiddenAddress)
         (keyring account : string) (count : option Z),
    hidden_badge hidden keyring account = found hidden keyring account
    /\ (forall label,
          ToggleVisible label ∈ DropdownOptions consts hidden keyring account ->
          label = if found hidden keyring account
                  then "Show address" else "Hide address")
    /\ (ShowAddress keyring account
          ∈ (handleToggleAddressVisible hidden keyring account count).2
        <-> found hidden keyring account = true).
Proof.
  intros consts hidden keyring account count.
  assert (Hlisted : listed hidden keyring account = found hidden keyring account).
  { unfold listed, found.
    induction hidden as [|item hidden IH]; simpl; [reflexivity|].
    unfold is_item at 1. rewrite (andb_comm (bool_decide (type item = keyring))).
    destruct (bool_decide (address item = account)
              && bool_decide (type item = keyring));
      [reflexivity|exact IH]. }
  split; [exact Hlisted|split].
  - intros label. unfold DropdownOptions. rewrite Hlisted.
    repeat case_bool_decide; simpl; intros Hin;
      repeat match goal with
      | H : _ ∈ [] |- _ => inversion H
      | H : _ ∈ _ :: _ |- _ => apply elem_of_cons in H as [H|H]; try discriminate
      end;
      injection Hin as ->; now destruct (found hidden keyring account).
  - unfold handleToggleAddressVisible.
    destruct (found hidden keyring account); simpl.
    + split; [reflexivity|]. intros _. apply list_elem_of_singleton. reflexivity.
    + split; [|discriminate]. intros Hin.
      destruct count as [total|]; [destruct (_ >=? _)%Z|]; simpl in Hin;
        repeat match goal with
        | H : _ ∈ [] |- _ => inversion H
        | H : _ ∈ _ :: _ |- _ => apply elem_of_cons in H as [H|H]; try discriminate
        end.
Qed.

(** X20. A secret is shown only after the authentication went through:
    the mnemonic and the private key are not even requested when it is
    rejected, a modal with a secret shows what the wallet returned, and a
    rejection anywhere ends the handler without another action. *)
Theorem secrets_need_authentication :
  forall (account : string) (auth : option unit) (secret : option string),
    (auth = None ->
     handleViewMnemonics auth secret = [Authenticate]
     /\ handlleViewPrivateKey account auth secret = [Authenticate])
    /\ (forall title content,
          ModalInfo title content ∈ handleViewMnemonics auth secret ->
          auth = Some tt /\ secret = Some content /\ title = "Mnemonics")
    /\ (forall title content,
          ModalInfo title content ∈ handlleViewPrivateKey account auth secret ->
          auth = Some tt /\ secret = Some content /\ title = "Private Key")
    /\ (forall other,
          ExportAccount other ∈ handlleViewPrivateKey account auth secret ->
          auth = Some tt /\ other = account).
Proof.
  intros account auth secret.
  unfold handleViewMnemonics, handlleViewPrivateKey.
  destruct auth as [[]|], secret as [content0|]; simpl;
    repeat split; intros;
    repeat match goal with
    | H : _ ∈ [] |- _ => inversion H
    | H : _ ∈ _ :: _ |- _ => apply elem_of_cons in H as [H|H]; try discriminate
    | H : ModalInfo _ _ = ModalInfo _ _ |- _ => injection H as -> ->
    | H : ExportAccount _ = ExportAccount _ |- _ => injection H as ->
    end;
    try discriminate; reflexivity.
Qed.

End AddressManagementFacts.
